(** * QSMxT: oblique-to-axial resampling (interfaces/nipype_interface_axialsampling.py)

    A shallow embedding of [resample_to_axial], [resample_files] and
    [resample_like], together with the library routines they call.

    Number types.  Everything the Python code reads from a NIfTI header (the
    affine, the zooms, the obliquity threshold) is a finite float, hence a
    rational, and is only combined with field operations and comparisons: it
    is modelled over [Q], so the geometry can be evaluated.  Voxel data goes
    through [cos], [sin], [hypot], [arctan2], and the obliquity through [sqrt]
    and [arccos]: these are modelled over [R].  Rounding of float64
    arithmetic, NaN and infinities are not modelled. *)

From Stdlib Require Import String Ascii.
From Stdlib Require Import QArith Qround Reals Lra Lia ZArith List Bool.
From Stdlib Require Import Qreals.
Import ListNotations.

Set Implicit Arguments.

(** ** numpy vectors and matrices over Q *)

Module Np.

Definition vec := list Q.
Definition matrix := list (list Q).

(** [a[i]] and [a[i,j]]; the indices used by the code are always in range. *)
Definition vget (v : vec) (i : nat) : Q := nth i v 0%Q.
Definition mget (m : matrix) (i j : nat) : Q := vget (nth i m []) j.

Fixpoint set_nth {A : Type} (i : nat) (x : A) (l : list A) : list A :=
  match l, i with
  | [], _ => []
  | _ :: t, O => x :: t
  | h :: t, S k => h :: set_nth k x t
  end.

(** [a[i,j] = x] *)
Definition mset (m : matrix) (i j : nat) (x : Q) : matrix :=
  set_nth i (set_nth j x (nth i m [])) m.

(** [np.sign] *)
Definition sign (x : Q) : Q := inject_Z (Z.sgn (Qnum x)).

(** [np.eye(n)] *)
Definition eye (n : nat) : matrix :=
  map (fun i => map (fun j => if Nat.eqb i j then 1%Q else 0%Q) (seq 0 n)) (seq 0 n).

(** [np.diag(a)] of a square matrix *)
Definition diag (m : matrix) : vec :=
  map (fun i => mget m i i) (seq 0 (length m)).

(** [v[:n]] *)
Definition take (n : nat) (v : vec) : vec := firstn n v.

(** element-wise product and scaling of equally long vectors *)
Fixpoint vmul (a b : vec) : vec :=
  match a, b with
  | x :: a', y :: b' => (x * y)%Q :: vmul a' b'
  | _, _ => []
  end.
Definition vdiv_scalar (a : vec) (c : Q) : vec := map (fun x => (x / c)%Q) a.
Definition vneg (a : vec) : vec := map Qopp a.

(** [np.fill_diagonal(a, val)] with an array [val]: the flattened [val] is
    written along the diagonal, repeating if necessary. *)
Fixpoint fill_diagonal_from (i : nat) (val : vec) (m : matrix) : matrix :=
  match m with
  | [] => []
  | row :: rest =>
      set_nth i (vget val (i mod length val)) row
        :: fill_diagonal_from (S i) val rest
  end.
Definition fill_diagonal (m : matrix) (val : vec) : matrix :=
  fill_diagonal_from 0 val m.

(** [a[:3,3] = v] *)
Definition set_translation (m : matrix) (v : vec) : matrix :=
  mset (mset (mset m 0 3 (vget v 0)) 1 3 (vget v 1)) 2 3 (vget v 2).

(** [np.array_equal] on 4x4 matrices: same shape and numerically equal
    entries. *)
Definition vec_equal (a b : vec) : bool :=
  Nat.eqb (length a) (length b) && forallb (fun p => Qeq_bool (fst p) (snd p)) (combine a b).
Definition array_equal (a b : matrix) : bool :=
  Nat.eqb (length a) (length b) && forallb (fun p => vec_equal (fst p) (snd p)) (combine a b).

End Np.

(** ** Volumes *)

(** Storage data types of a NIfTI header that the pipeline meets. *)
Inductive dtype : Type :=
| uint8 | int16 | int32 | uint16
| float16 | float32 | float64.

Definition is_floating (d : dtype) : bool :=
  match d with
  | float16 | float32 | float64 => true
  | _ => false
  end.

Definition index : Type := (nat * nat * nat)%type.
Definition shape3 : Type := (nat * nat * nat)%type.

(** A three-dimensional float64 array, as [get_fdata()] returns it. *)
Record ndarray : Type := mk_ndarray {
  shape : shape3;
  at_ : index -> R
}.

Definition in_bounds (s : shape3) (i : index) : bool :=
  let '(dx, dy, dz) := s in
  let '(x, y, z) := i in
  Nat.ltb x dx && Nat.ltb y dy && Nat.ltb z dz.

Record Nifti1Header : Type := mk_header {
  zooms : Q * Q * Q;
  data_shape : shape3;
  data_dtype : dtype
}.

Record Nifti1Image : Type := mk_image {
  dataobj : ndarray;
  affine : Np.matrix;
  header : Nifti1Header
}.

Definition set_data_dtype (h : Nifti1Header) (d : dtype) : Nifti1Header :=
  mk_header (zooms h) (data_shape h) d.

(** [nib.Nifti1Image(data, affine=..., header=...)]: the header is copied and
    its shape is brought in line with the data; the data type of the header is
    kept. *)
Definition new_Nifti1Image (data : ndarray) (aff : Np.matrix) (h : Nifti1Header)
  : Nifti1Image :=
  mk_image data aff (mk_header (zooms h) (shape data) (data_dtype h)).

Definition get_zooms (h : Nifti1Header) : Np.vec :=
  let '(sx, sy, sz) := zooms h in [sx; sy; sz].

Definition get_data_shape (h : Nifti1Header) : Np.vec :=
  let '(dx, dy, dz) := data_shape h in
  [inject_Z (Z.of_nat dx); inject_Z (Z.of_nat dy); inject_Z (Z.of_nat dz)].

(** ** Geometry builder: the first block of [resample_to_axial] *)

Definition base_affine_of (mag_nii : Nifti1Image) : Np.matrix :=
  let voxel_size := get_zooms (header mag_nii) in
  let resolution := get_data_shape (header mag_nii) in
  let origin := Np.vdiv_scalar (Np.vmul voxel_size resolution) 2 in
  let base_affine := Np.eye 4 in
  let base_affine :=
    Np.fill_diagonal base_affine
      (Np.vmul voxel_size (Np.take 3 (map Np.sign (Np.diag (affine mag_nii))))) in
  let base_affine := Np.mset base_affine 3 3 1 in
  Np.set_translation base_affine
    (Np.vmul origin (Np.vneg (map Np.sign (Np.take 3 (Np.diag (affine mag_nii)))))).

(** ** Exceptions *)

(** The exceptions that can leave the module.  [GeometryError] is the error
    class the design document names for malformed geometry; no statement of
    the module raises it. *)
Inductive Exn : Type :=
| FileNotFoundError
| ValueError
| LinAlgError
| BoundingBoxError
| GeometryError.

Inductive result (A : Type) : Type :=
| Ok (a : A)
| Raise (e : Exn).
Arguments Ok {A} a.
Arguments Raise {A} e.

Definition bind {A B : Type} (r : result A) (k : A -> result B) : result B :=
  match r with
  | Ok a => k a
  | Raise e => Raise e
  end.

Notation "x <- r ;; k" := (bind r (fun x => k))
  (at level 61, r at next level, right associativity).

(** ** Element-wise numpy operations on float64 arrays *)

Module Arr.

(** numpy broadcasting of two three-dimensional shapes *)
Definition broadcast_dim (a b : nat) : option nat :=
  if Nat.eqb a b then Some a
  else if Nat.eqb a 1 then Some b
  else if Nat.eqb b 1 then Some a
  else None.

Definition broadcast_shapes (s t : shape3) : option shape3 :=
  let '(a0, a1, a2) := s in
  let '(b0, b1, b2) := t in
  match broadcast_dim a0 b0, broadcast_dim a1 b1, broadcast_dim a2 b2 with
  | Some c0, Some c1, Some c2 => Some (c0, c1, c2)
  | _, _, _ => None
  end.

(** the element of an operand that a result index reads *)
Definition bidx (s : shape3) (i : index) : index :=
  let '(a0, a1, a2) := s in
  let '(x, y, z) := i in
  (if Nat.eqb a0 1 then O else x,
   if Nat.eqb a1 1 then O else y,
   if Nat.eqb a2 1 then O else z).

Definition map (f : R -> R) (a : ndarray) : ndarray :=
  mk_ndarray (shape a) (fun i => f (at_ a i)).

Definition map2 (f : R -> R -> R) (a b : ndarray) : result ndarray :=
  match broadcast_shapes (shape a) (shape b) with
  | Some s =>
      Ok (mk_ndarray s (fun i => f (at_ a (bidx (shape a) i)) (at_ b (bidx (shape b) i))))
  | None => Raise ValueError
  end.

End Arr.

(** ** Real-valued numpy functions *)

Definition Rltb (x y : R) : bool := if Rlt_dec x y then true else false.

(** [np.round(x, 0)]: to the nearest integer, ties to the even one *)
Definition rint (x : R) : Z :=
  let f := Int_part x in
  let r := (x - IZR f)%R in
  if Rlt_dec r (1/2) then f
  else if Rlt_dec (1/2) r then (f + 1)%Z
  else if Z.even f then f else (f + 1)%Z.
Definition np_round (x : R) : R := IZR (rint x).

(** [np.hypot] *)
Definition hypot (x y : R) : R := sqrt (x * x + y * y).

(** [np.arctan2(y, x)] *)
Definition arctan2 (y x : R) : R :=
  if Rlt_dec 0 x then atan (y / x)
  else if Rlt_dec x 0 then
    (if Rlt_dec y 0 then atan (y / x) - PI else atan (y / x) + PI)
  else if Rlt_dec 0 y then PI / 2
  else if Rlt_dec y 0 then - (PI / 2)
  else 0.

(** [np.rad2deg] *)
Definition rad2deg (x : R) : R := x * 180 / PI.

(** ** Casting to a storage type: [np.array(a, dtype=...)] *)

(** width and signedness of the integer types *)
Definition int_range (d : dtype) : option (Z * Z) :=
  match d with
  | uint8 => Some (0, 255)%Z
  | uint16 => Some (0, 65535)%Z
  | int16 => Some (-32768, 32767)%Z
  | int32 => Some (-2147483648, 2147483647)%Z
  | _ => None
  end.

(** truncation toward zero, as the C cast of a float to an integer *)
Definition trunc (x : R) : Z :=
  if Rlt_dec x 0 then (- Int_part (- x))%Z else Int_part x.

(** wrap-around into [lo, hi] of a value the integer type cannot hold.  What
    numpy stores for such a value depends on the platform (x86-64 gives the
    minimum of int32); no statement below relies on the value outside the
    range. *)
Definition wrap (lo hi z : Z) : Z := (lo + (z - lo) mod (hi - lo + 1))%Z.

Section Casts.

(** Rounding of a real to the nearest value of a binary floating-point
    format; the formats are not modelled. *)
Variable fround : dtype -> R -> R.

Definition astype (d : dtype) (x : R) : R :=
  match int_range d with
  | Some (lo, hi) => IZR (wrap lo hi (trunc x))
  | None =>
      match d with
      | float64 => x
      | _ => fround d x
      end
  end.

End Casts.

(** ** Affine algebra on 4x4 matrices whose last row is (0, 0, 0, 1) *)

Module Affine.
Import Np.

Definition point : Type := (Q * Q * Q)%type.

Definition det3 (m : matrix) : Q :=
  mget m 0 0 * (mget m 1 1 * mget m 2 2 - mget m 1 2 * mget m 2 1)
  - mget m 0 1 * (mget m 1 0 * mget m 2 2 - mget m 1 2 * mget m 2 0)
  + mget m 0 2 * (mget m 1 0 * mget m 2 1 - mget m 1 1 * mget m 2 0).

(** [np.linalg.inv] of an affine: the inverse of the 3x3 block by cofactors
    and the matching translation; a singular block has no inverse. *)
Definition inv (m : matrix) : option matrix :=
  let d := det3 m in
  if Qeq_bool d 0 then None
  else
    let i00 := (mget m 1 1 * mget m 2 2 - mget m 1 2 * mget m 2 1) / d in
    let i01 := (mget m 0 2 * mget m 2 1 - mget m 0 1 * mget m 2 2) / d in
    let i02 := (mget m 0 1 * mget m 1 2 - mget m 0 2 * mget m 1 1) / d in
    let i10 := (mget m 1 2 * mget m 2 0 - mget m 1 0 * mget m 2 2) / d in
    let i11 := (mget m 0 0 * mget m 2 2 - mget m 0 2 * mget m 2 0) / d in
    let i12 := (mget m 0 2 * mget m 1 0 - mget m 0 0 * mget m 1 2) / d in
    let i20 := (mget m 1 0 * mget m 2 1 - mget m 1 1 * mget m 2 0) / d in
    let i21 := (mget m 0 1 * mget m 2 0 - mget m 0 0 * mget m 2 1) / d in
    let i22 := (mget m 0 0 * mget m 1 1 - mget m 0 1 * mget m 1 0) / d in
    let t0 := mget m 0 3 in let t1 := mget m 1 3 in let t2 := mget m 2 3 in
    Some [ [i00; i01; i02; - (i00 * t0 + i01 * t1 + i02 * t2)];
           [i10; i11; i12; - (i10 * t0 + i11 * t1 + i12 * t2)];
           [i20; i21; i22; - (i20 * t0 + i21 * t1 + i22 * t2)];
           [0; 0; 0; 1] ].

Definition dot (a b : vec) : Q := fold_right Qplus 0 (vmul a b).
Definition col (m : matrix) (j : nat) : vec := map (fun r => vget r j) m.

(** [a.dot(b)] *)
Definition matmul (a b : matrix) : matrix :=
  map (fun r => map (fun j => dot r (col b j)) (seq 0 4)) a.

(** the image of a voxel coordinate *)
Definition apply (m : matrix) (p : point) : point :=
  let '(x, y, z) := p in
  (mget m 0 0 * x + mget m 0 1 * y + mget m 0 2 * z + mget m 0 3,
   mget m 1 0 * x + mget m 1 1 * y + mget m 1 2 * z + mget m 1 3,
   mget m 2 0 * x + mget m 2 1 * y + mget m 2 2 * z + mget m 2 3).

Definition of_index (i : index) : point :=
  let '(x, y, z) := i in
  (inject_Z (Z.of_nat x), inject_Z (Z.of_nat y), inject_Z (Z.of_nat z)).

Definition Qmax (a b : Q) : Q := if Qle_bool a b then b else a.

(** the eight corners of the voxel box of a volume *)
Definition corners (s : shape3) : list point :=
  let '(dx, dy, dz) := s in
  let ex := inject_Z (Z.of_nat dx - 1) in
  let ey := inject_Z (Z.of_nat dy - 1) in
  let ez := inject_Z (Z.of_nat dz - 1) in
  [ (0, 0, 0); (ex, 0, 0); (0, ey, 0); (0, 0, ez);
    (ex, ey, 0); (ex, 0, ez); (0, ey, ez); (ex, ey, ez) ].

(** upper bounds, per axis, of the box that holds the transformed corners *)
Definition upper_bounds (s : shape3) (m : matrix) : point :=
  fold_right
    (fun p acc =>
       let '(x, y, z) := apply m p in
       let '(ax, ay, az) := acc in
       (Qmax x ax, Qmax y ay, Qmax z az))
    (apply m (0, 0, 0)) (corners s).

End Affine.

(** ** The resampler (nilearn.image.resample_img) *)

Inductive interpolation : Type := continuous | nearest.

Section Resampler.

(** Modelled from the spec: the value of the continuous (spline)
    interpolation of an array at a fractional voxel coordinate, with the
    treatment of the border and of the outside folded in.  nilearn and scipy
    are not part of the repository; section 4.3 of the design fixes only the
    contract used below. *)
Variable continuous_interp : ndarray -> Affine.point -> R.

(** Modelled from the spec: nearest-neighbour sampling selects the single
    closest source voxel, and a target voxel outside the source's support is
    filled with zero (section 4.3). *)
Definition nearest_voxel (p : Affine.point) : Z * Z * Z :=
  let '(x, y, z) := p in
  (Qfloor (x + (1 # 2)), Qfloor (y + (1 # 2)), Qfloor (z + (1 # 2))).

Definition inside (s : shape3) (v : Z * Z * Z) : bool :=
  let '(dx, dy, dz) := s in
  let '(x, y, z) := v in
  (0 <=? x)%Z && (x <? Z.of_nat dx)%Z &&
  (0 <=? y)%Z && (y <? Z.of_nat dy)%Z &&
  (0 <=? z)%Z && (z <? Z.of_nat dz)%Z.

Definition to_index (v : Z * Z * Z) : index :=
  let '(x, y, z) := v in (Z.to_nat x, Z.to_nat y, Z.to_nat z).

Definition nearest_interp (a : ndarray) (p : Affine.point) : R :=
  let v := nearest_voxel p in
  if inside (shape a) v then at_ a (to_index v) else 0%R.

Definition sample (interp : interpolation) (a : ndarray) (p : Affine.point) : R :=
  match interp with
  | continuous => continuous_interp a p
  | nearest => nearest_interp a p
  end.

(** Modelled from the spec: [resample_img(img, target_affine, target_shape,
    interpolation)] samples the source onto the grid of [target_affine]; with
    no [target_shape] the output extent is the box that covers the
    transformed source (section 4.3).  Both affines have to be inverted, and
    numpy refuses a singular matrix; a source that lies entirely outside the
    field of view of the target is refused as well. *)
Definition resample_img (img : Nifti1Image) (target_affine : Np.matrix)
    (target_shape : option shape3) (interp : interpolation) : result Nifti1Image :=
  match Affine.inv target_affine with
  | None => Raise LinAlgError
  | Some tinv =>
      let data := dataobj img in
      let transform_affine := Affine.matmul tinv (affine img) in
      let '(xmax, ymax, zmax) := Affine.upper_bounds (shape data) transform_affine in
      let out_shape :=
        match target_shape with
        | Some s => s
        | None => (Z.to_nat (Qceiling xmax + 1),
                   Z.to_nat (Qceiling ymax + 1),
                   Z.to_nat (Qceiling zmax + 1))
        end in
      if negb (Qle_bool 0 xmax) || negb (Qle_bool 0 ymax) || negb (Qle_bool 0 zmax)
      then Raise BoundingBoxError
      else
        match Affine.inv (affine img) with
        | None => Raise LinAlgError
        | Some sinv =>
            let vox2vox := Affine.matmul sinv target_affine in
            let out :=
              mk_ndarray out_shape
                (fun o => sample interp data (Affine.apply vox2vox (Affine.of_index o))) in
            Ok (new_Nifti1Image out target_affine (header img))
        end
  end.

End Resampler.

(** ** Obliquity (nibabel.affines.obliquity) and [np.linalg.norm] *)

(** nibabel is a third-party package; its routine divides the 3x3 block by
    the voxel sizes (the column norms), takes the largest absolute entry of
    each row and returns the arc cosines. *)

Module Obliquity.

Definition entry (a : Np.matrix) (i j : nat) : R := Q2R (Np.mget a i j).

(** [voxel_sizes]: the Euclidean norm of column [j] of the 3x3 block *)
Definition voxel_size (a : Np.matrix) (j : nat) : R :=
  sqrt (entry a 0 j * entry a 0 j + entry a 1 j * entry a 1 j + entry a 2 j * entry a 2 j).

(** the largest absolute direction cosine of row [i] *)
Definition best_cosine (a : Np.matrix) (i : nat) : R :=
  Rmax (Rmax (Rabs (entry a i 0 / voxel_size a 0))
             (Rabs (entry a i 1 / voxel_size a 1)))
       (Rabs (entry a i 2 / voxel_size a 2)).

(** per-axis obliquity, in radians *)
Definition obliquity (a : Np.matrix) : list R :=
  [acos (best_cosine a 0); acos (best_cosine a 1); acos (best_cosine a 2)].

Definition norm (v : list R) : R :=
  sqrt (fold_right (fun x acc => x * x + acc)%R 0%R v).

End Obliquity.

(** ** Files *)

(** The images on disk, most recent write first. *)
Definition store : Type := list (string * Nifti1Image).

Fixpoint nib_load (fs : store) (path : string) : result Nifti1Image :=
  match fs with
  | [] => Raise FileNotFoundError
  | (p, img) :: rest => if String.eqb p path then Ok img else nib_load rest path
  end.

(** [nib.save]; the write is taken to succeed (the real one fails when the
    directory of the name does not exist) *)
Definition nib_save (img : Nifti1Image) (path : string) (fs : store) : store :=
  (path, img) :: fs.

Module Path.

Definition is_char (c d : ascii) : bool := Ascii.eqb c d.

Fixpoint has_sep (s : string) : bool :=
  match s with
  | EmptyString => false
  | String c r => is_char c "/" || has_sep r
  end.

(** [os.path.split(p)[1]] *)
Fixpoint basename (s : string) : string :=
  match s with
  | EmptyString => EmptyString
  | String c r =>
      if is_char c "/" then basename r
      else if has_sep r then basename r
      else s
  end.

(** [s.split('.')[0]] *)
Fixpoint stem (s : string) : string :=
  match s with
  | EmptyString => EmptyString
  | String c r => if is_char c "." then EmptyString else String c (stem r)
  end.

(** ['.'.join(s.split('.')[1:])] *)
Fixpoint extension (s : string) : string :=
  match s with
  | EmptyString => EmptyString
  | String c r => if is_char c "." then r else extension r
  end.

End Path.

(** Python truthiness of an optional path and of an optional number *)
Definition truthy_path (o : option string) : bool :=
  match o with
  | Some s => negb (String.eqb s EmptyString)
  | None => false
  end.

Definition truthy_float (o : option Q) : bool :=
  match o with
  | Some t => negb (Qeq_bool t 0)
  | None => false
  end.

(** [nib.load(mask_file) if mask_file else None] *)
Definition load_mask (fs : store) (mask_file : option string)
  : result (option Nifti1Image) :=
  if truthy_path mask_file
  then match mask_file with
       | Some f => m <- nib_load fs f ;; Ok (Some m)
       | None => Ok None
       end
  else Ok None.

(** ** The module's functions *)

Section AxialSampling.

Variable fround : dtype -> R -> R.
Variable continuous_interp : ndarray -> Affine.point -> R.
(** [os.path.abspath], which depends on the working directory of the process *)
Variable abspath : string -> string.

(** second block of [resample_to_axial]:
    compute real and imaginary components from magnitude and phase *)
Definition decompose (mag_nii pha_nii : Nifti1Image)
  : result (Nifti1Image * Nifti1Image) :=
  let pha := dataobj pha_nii in
  let mag := dataobj mag_nii in
  real <- Arr.map2 Rmult mag (Arr.map cos pha) ;;
  imag <- Arr.map2 Rmult mag (Arr.map sin pha) ;;
  let cplx_header := set_data_dtype (header mag_nii) float32 in
  Ok (new_Nifti1Image real (affine pha_nii) cplx_header,
      new_Nifti1Image imag (affine pha_nii) cplx_header).

(** fourth and fifth block of [resample_to_axial]:
    convert real and imaginary to magnitude and phase, create nifti objects *)
Definition recompose (mag_nii pha_nii real_rot_nii imag_rot_nii : Nifti1Image)
  : result (Nifti1Image * Nifti1Image) :=
  let real_rot := dataobj real_rot_nii in
  let imag_rot := dataobj imag_rot_nii in
  h <- Arr.map2 hypot real_rot imag_rot ;;
  let mag_rot :=
    Arr.map (fun x => astype fround (data_dtype (header mag_nii)) (np_round x)) h in
  a <- Arr.map2 arctan2 imag_rot real_rot ;;
  let pha_rot := Arr.map (astype fround float16) a in
  Ok (new_Nifti1Image mag_rot (affine real_rot_nii) (header mag_nii),
      new_Nifti1Image pha_rot (affine real_rot_nii) (header pha_nii)).

Definition resample_to_axial (mag_nii pha_nii : Nifti1Image)
    (mask_nii : option Nifti1Image)
  : result (Nifti1Image * Nifti1Image * option Nifti1Image) :=
  let base_affine := base_affine_of mag_nii in
  ri <- decompose mag_nii pha_nii ;;
  let '(real_nii, imag_nii) := ri in
  real_rot_nii <- resample_img continuous_interp real_nii base_affine None continuous ;;
  imag_rot_nii <- resample_img continuous_interp imag_nii base_affine None continuous ;;
  mask_rot_nii <-
    match mask_nii with
    | Some m =>
        r <- resample_img continuous_interp m base_affine None nearest ;; Ok (Some r)
    | None => Ok None
    end ;;
  mp <- recompose mag_nii pha_nii real_rot_nii imag_rot_nii ;;
  let '(mag_rot_nii, pha_rot_nii) := mp in
  Ok (mag_rot_nii, pha_rot_nii, mask_rot_nii).

(** the obliquity check of [resample_files] *)
Definition obliquity_norm (mag_nii : Nifti1Image) : R :=
  Obliquity.norm (map rad2deg (Obliquity.obliquity (affine mag_nii))).

Definition gate_skips (mag_nii : Nifti1Image) (obliquity_threshold : option Q) : bool :=
  truthy_float obliquity_threshold &&
  match obliquity_threshold with
  | Some t => Rltb (obliquity_norm mag_nii) (Q2R t)
  | None => false
  end.

Definition resampled_name (file : string) : string :=
  let fname := Path.stem (Path.basename file) in
  let ext := Path.extension file in
  abspath (fname ++ "_resampled." ++ ext).

(** the part of [resample_files] after the obliquity check: resample, save
    the results.  The [print] calls are left out.  A resampled mask exists
    only if a mask file was given, so the mask branch has its name at hand. *)
Definition resample_and_save (fs : store) (mag_file pha_file : string)
    (mask_file : option string) (mag_nii pha_nii : Nifti1Image)
    (mask_nii : option Nifti1Image)
  : result ((string * string * option string) * store) :=
  r <- resample_to_axial mag_nii pha_nii mask_nii ;;
  let '(mag_rot_nii, pha_rot_nii, mask_rot_nii) := r in
  let mag_resampled_fname := resampled_name mag_file in
  let pha_resampled_fname := resampled_name pha_file in
  let fs := nib_save mag_rot_nii mag_resampled_fname fs in
  let fs := nib_save pha_rot_nii pha_resampled_fname fs in
  let mask_resampled_fname := "placeholder"%string in
  match mask_rot_nii, mask_file with
  | Some m, Some f =>
      let mask_resampled_fname := resampled_name f in
      let fs := nib_save m mask_resampled_fname fs in
      Ok ((mag_resampled_fname, pha_resampled_fname, Some mask_resampled_fname), fs)
  | _, _ =>
      Ok ((mag_resampled_fname, pha_resampled_fname, Some mask_resampled_fname), fs)
  end.

(** [resample_files]; the [print] calls are left out, and the files on disk
    are threaded through as [fs]. *)
Definition resample_files (fs : store) (mag_file pha_file : string)
    (mask_file : option string) (obliquity_threshold : option Q)
  : result ((string * string * option string) * store) :=
  mag_nii <- nib_load fs mag_file ;;
  pha_nii <- nib_load fs pha_file ;;
  mask_nii <- load_mask fs mask_file ;;
  if gate_skips mag_nii obliquity_threshold
  then Ok ((mag_file, pha_file, mask_file), fs)
  else resample_and_save fs mag_file pha_file mask_file mag_nii pha_nii mask_nii.

Definition resample_like (fs : store) (in_file in_like : string)
    (interp : interpolation) : result (string * store) :=
  in_nii <- nib_load fs in_file ;;
  in_like_nii <- nib_load fs in_like ;;
  if Np.array_equal (affine in_nii) (affine in_like_nii)
  then Ok (in_file, fs)
  else
    in_nii_resampled <-
      resample_img continuous_interp in_nii (affine in_like_nii)
        (Some (data_shape (header in_like_nii))) interp ;;
    let in_resampled_fname := resampled_name in_file in
    Ok (in_resampled_fname, nib_save in_nii_resampled in_resampled_fname fs).

End AxialSampling.

(** ** Volumes used as concrete inputs *)

Module Scenario.

Definition constant (s : shape3) (v : R) : ndarray := mk_ndarray s (fun _ => v).

Definition diag_affine (a b c : Q) : Np.matrix :=
  [ [a; 0; 0; 0]; [0; b; 0; 0]; [0; 0; c; 0]; [0; 0; 0; 1] ].

(** the axial volume pair of the end-to-end scenario: 64x64x64, magnitude
    100, phase 0.5 rad, affine diag(2, 2, 2, 1) *)
Definition axial_header (d : dtype) : Nifti1Header :=
  mk_header (2, 2, 2) (64, 64, 64)%nat d.
Definition axial_mag : Nifti1Image :=
  mk_image (constant (64, 64, 64)%nat 100) (diag_affine 2 2 2) (axial_header int16).
Definition axial_pha : Nifti1Image :=
  mk_image (constant (64, 64, 64)%nat (1 / 2)) (diag_affine 2 2 2) (axial_header float32).

(** a small unit-spacing volume whose voxel (0,0,0) sits at the origin *)
Definition unit_header (d : dtype) : Nifti1Header :=
  mk_header (1, 1, 1) (2, 2, 2)%nat d.
Definition unit_mag : Nifti1Image :=
  mk_image (constant (2, 2, 2)%nat 100) (diag_affine 1 1 1) (unit_header int16).
Definition unit_pha : Nifti1Image :=
  mk_image (constant (2, 2, 2)%nat (1 / 2)) (diag_affine 1 1 1) (unit_header float32).
(** a mask that labels every voxel 1 *)
Definition unit_mask : Nifti1Image :=
  mk_image (constant (2, 2, 2)%nat 1) (diag_affine 1 1 1) (unit_header uint8).

(** a sagittal acquisition: the voxel axes are a cyclic permutation of the
    scanner axes, so the diagonal of the affine is zero *)
Definition sagittal_affine : Np.matrix :=
  [ [0; 0; 1; 0]; [1; 0; 0; 0]; [0; 1; 0; 0]; [0; 0; 0; 1] ].
Definition sagittal_mag : Nifti1Image :=
  mk_image (constant (2, 2, 2)%nat 100) sagittal_affine (unit_header int16).
Definition sagittal_pha : Nifti1Image :=
  mk_image (constant (2, 2, 2)%nat (1 / 2)) sagittal_affine (unit_header float32).

(** a float64 magnitude volume with the value -2, on phase 0 *)
Definition negative_mag : Nifti1Image :=
  mk_image (constant (2, 2, 2)%nat (-2)) (diag_affine 1 1 1) (unit_header float64).
Definition zero_pha : Nifti1Image :=
  mk_image (constant (2, 2, 2)%nat 0) (diag_affine 1 1 1) (unit_header float32).

Definition files : store :=
  [ ("sub-1_mag.nii.gz"%string, axial_mag); ("sub-1_phase.nii.gz"%string, axial_pha);
    ("u_mag.nii"%string, unit_mag); ("u_phase.nii"%string, unit_pha);
    ("u_mask.nii"%string, unit_mask) ].

(** stand-ins for the environment *)
Definition fround_id (_ : dtype) (x : R) : R := x.
Definition interp0 (_ : ndarray) (_ : Affine.point) : R := 0%R.
Definition abspath_root (s : string) : string := ("/work/" ++ s)%string.

End Scenario.

(** ** scripts/logger.py: the record buffer behind the log handlers *)

Module Logger.

(** [_StringStream]: the records written so far, oldest first; [max_records]
    is [None] or an integer; what [print] sends to standard output is
    returned next to the new stream. *)
Record StringStream : Type := mk_stream {
  items : list string;
  max_records : option Z;
  print_new_records : bool
}.

(** [_StringStream(max_records, print_new_records)] *)
Definition new_stream (max_records : option Z) (print_new_records : bool)
  : StringStream :=
  mk_stream [] max_records print_new_records.

(** [list.pop(0)] on a list that is not empty *)
Definition pop0 (l : list string) : list string := tl l.

(** Python truthiness of [max_records] *)
Definition truthy_int (o : option Z) : bool :=
  match o with
  | Some n => negb (Z.eqb n 0)
  | None => false
  end.

Definition exceeds (l : list string) (o : option Z) : bool :=
  match o with
  | Some n => Z.ltb n (Z.of_nat (List.length l))
  | None => false
  end.

(** [write(record)] *)
Definition write (s : StringStream) (record : string)
  : StringStream * list string :=
  let items1 := items s ++ [record] in
  let printed := if print_new_records s then [record] else [] in
  let items2 :=
    if truthy_int (max_records s) && exceeds items1 (max_records s)
    then pop0 items1 else items1 in
  (mk_stream items2 (max_records s) (print_new_records s), printed).

(** a sequence of [write] calls; the printed records are collected *)
Fixpoint write_all (s : StringStream) (records : list string)
  : StringStream * list string :=
  match records with
  | [] => (s, [])
  | r :: rest =>
      let '(s1, p1) := write s r in
      let '(s2, p2) := write_all s1 rest in
      (s2, p1 ++ p2)
  end.

(** [__len__] *)
Definition len (s : StringStream) : nat := List.length (items s).

End Logger.

(** ** run_2_qsm.py: option handling and the file checks of a run *)

Module Qsm.

(** ['needle' in hay] *)
Fixpoint contains (needle hay : string) : bool :=
  String.prefix needle hay ||
  match hay with
  | EmptyString => false
  | String _ rest => contains needle rest
  end.

(** the two values the parser accepts for [--qsm_algorithm] *)
Inductive QsmAlgorithm : Type := tgv_qsm | nextqsm.

(** the options that [process_args] and [init_run_workflow] read or write *)
Record Args : Type := mk_args {
  masking : string;
  qsm_algorithm : QsmAlgorithm;
  add_bet : bool;
  two_pass : bool;
  single_pass : bool;
  inhomogeneity_correction : bool;
  use_existing_masks : bool;
  num_echoes : option Z;
  n_procs : option Z;
  qsub_account_string : option string;
  tgvqsm_threads : Z
}.

(** [--masking] is [None] until [process_args] has run; the parser's
    [None] is represented by the empty string, which is falsy as well. *)
Definition truthy_string (s : string) : bool := negb (String.eqb s EmptyString).

Definition truthy_int (o : option Z) : bool :=
  match o with
  | Some n => negb (Z.eqb n 0)
  | None => false
  end.

(** [process_args]; [n_cpus] is what the environment reports (NCPUS or
    [os.cpu_count()]); the debug settings of nipype are left out. *)
Definition process_args (n_cpus : Z) (args : Args) : Args :=
  let masking1 :=
    if negb (truthy_string (masking args))
    then match qsm_algorithm args with
         | tgv_qsm => "phase-based"%string
         | nextqsm => "bet-firstecho"%string
         end
    else masking args in
  let add_bet1 := add_bet args && negb (contains "bet" masking1) in
  let two_pass1 := negb (contains "bet" masking1) && negb (single_pass args) in
  let single_pass1 := negb two_pass1 in
  let inhomogeneity_correction1 :=
    inhomogeneity_correction args
    && (add_bet1 || negb (contains "phase-based" masking1)) in
  let n_procs1 := if negb (truthy_int (n_procs args)) then Some n_cpus else n_procs args in
  let tgvqsm_threads1 :=
    if negb (truthy_path (qsub_account_string args))
    then match n_procs1 with
         | Some n => Z.min 6 n
         | None => 6%Z
         end
    else 6%Z in
  mk_args masking1 (qsm_algorithm args) add_bet1 two_pass1 single_pass1
    inhomogeneity_correction1 (use_existing_masks args) (num_echoes args)
    n_procs1 (qsub_account_string args) tgvqsm_threads1.

(** [l[:n]] for [n] either [None] or an integer *)
Definition slice_to {A : Type} (l : list A) (n : option Z) : list A :=
  match n with
  | None => l
  | Some k =>
      if (0 <=? k)%Z then firstn (Z.to_nat k) l
      else firstn (List.length l - Z.to_nat (- k)) l
  end.

Inductive RunWarning : Type :=
| NoPhaseFiles
| UnequalJsonAndPhase
| NoMagnitudeFiles
| NoMasksFound
| UnequalMaskAndPhase.

Record RunFiles : Type := mk_files {
  phase_files : list string;
  magnitude_files : list string;
  params_files : list string;
  mask_files : list string
}.

Definition is_nil {A : Type} (l : list A) : bool :=
  match l with
  | [] => true
  | _ => false
  end.

(** The file checks at the start of [init_run_workflow].  The options are a
    copy of those [process_args] returned, so a masking method is set.  The
    four arguments after the options are the sorted matches of the four glob
    patterns.  [None] stands for the early [return] that skips the run; the
    warnings logged on the way are returned in order. *)
Definition check_run (run_args : Args)
    (phase_glob magnitude_glob params_glob mask_glob : list string)
  : option (Args * RunFiles) * list RunWarning :=
  let phase_files := slice_to phase_glob (num_echoes run_args) in
  let magnitude_files := slice_to magnitude_glob (num_echoes run_args) in
  let params_files := slice_to params_glob (num_echoes run_args) in
  let mask_files :=
    if use_existing_masks run_args
    then slice_to mask_glob (num_echoes run_args) else [] in
  if is_nil phase_files then (None, [NoPhaseFiles])
  else if negb (Nat.eqb (List.length phase_files) (List.length params_files))
  then (None, [UnequalJsonAndPhase])
  else
    let revert :=
      is_nil magnitude_files &&
      (String.eqb (masking run_args) "magnitude-based"
       || contains "bet" (masking run_args)
       || add_bet run_args
       || inhomogeneity_correction run_args) in
    let w1 := if revert then [NoMagnitudeFiles] else [] in
    let masking1 := if revert then "phase-based"%string else masking run_args in
    let add_bet1 := if revert then false else add_bet run_args in
    let inhomogeneity1 := if revert then false else inhomogeneity_correction run_args in
    let w2 :=
      if use_existing_masks run_args && is_nil mask_files then [NoMasksFound] else [] in
    let unequal :=
      use_existing_masks run_args
      && Nat.ltb 1 (List.length mask_files)
      && negb (Nat.eqb (List.length mask_files) (List.length phase_files)) in
    let w3 := if unequal then [UnequalMaskAndPhase] else [] in
    let mask_files1 := if unequal then [] else mask_files in
    let predefined := use_existing_masks run_args && negb (is_nil mask_files1) in
    let args1 :=
      mk_args masking1 (qsm_algorithm run_args)
        (if predefined then false else add_bet1)
        (if predefined then false else two_pass run_args)
        (if predefined then true else single_pass run_args)
        (if predefined then false else inhomogeneity1)
        (use_existing_masks run_args) (num_echoes run_args) (n_procs run_args)
        (qsub_account_string run_args) (tgvqsm_threads run_args) in
    (Some (args1, mk_files phase_files magnitude_files params_files mask_files1),
     w1 ++ w2 ++ w3).

(** the mask list handed to the [nipype_getfiles] node: one mask is
    repeated for every phase file *)
Definition getfiles_mask_files (f : RunFiles) : list string :=
  match mask_files f with
  | [m] => List.map (fun _ => m) (phase_files f)
  | l => l
  end.

(** the "Masking algorithm" entry of the JSON header of a run *)
Definition masking_label (run_args : Args) (f : RunFiles) : string :=
  if is_nil (mask_files f)
  then (masking run_args ++ (if add_bet run_args then " plus BET" else ""))%string
  else if Nat.eqb (List.length (mask_files f)) 1
       then "Predefined (one mask)"%string
       else "Predefined (multi-echo mask)"%string.

(** the nodes of a run whose creation depends on the files: the axial
    resampling node exists only with magnitude files, and the
    inhomogeneity-correction node is wired to its output *)
Definition has_resample_node (f : RunFiles) : bool := negb (is_nil (magnitude_files f)).
Definition has_inhomogeneity_node (run_args : Args) : bool :=
  inhomogeneity_correction run_args.

End Qsm.

(** ** run_2_qsm.py: subject, session and run names *)

Module Bids.

(** the first position, counted from [pos], at which [needle] starts in [s] *)
Fixpoint find_at (needle s : string) (pos : nat) : option nat :=
  if String.prefix needle s then Some pos
  else match s with
       | EmptyString => None
       | String _ r => find_at needle r (S pos)
       end.

(** [s[n:]] *)
Fixpoint skip (n : nat) (s : string) : string :=
  match n, s with
  | O, _ => s
  | S k, String _ r => skip k r
  | S _, EmptyString => EmptyString
  end.

(** [s.find(needle, start)]: the lowest index from [start] on, or -1 *)
Definition find (needle s : string) (start : nat) : Z :=
  if Nat.ltb (String.length s) start then (-1)%Z
  else match find_at needle (skip start s) start with
       | Some i => Z.of_nat i
       | None => (-1)%Z
       end.

(** [s[a:b]] for a non-negative [a]; a negative [b] counts from the end *)
Definition slice (s : string) (a : nat) (b : Z) : string :=
  let n := Z.of_nat (String.length s) in
  let e := if (b <? 0)%Z then Z.max 0 (n + b) else Z.min b n in
  String.substring a (Z.to_nat e - a) s.

(** the run label that [init_session_workflow] reads off a phase file *)
Definition run_label (path : string) : string :=
  let name := Path.basename path in
  let a := Z.to_nat (find "run-" name 0 + 4) in
  ("run-" ++ slice name a (find "_" name a))%string.

(** Python truthiness of an optional list *)
Definition truthy_list (o : option (list string)) : bool :=
  match o with
  | Some (_ :: _) => true
  | _ => false
  end.

(** [x in wanted] *)
Definition member (x : string) (o : option (list string)) : bool :=
  match o with
  | Some l => existsb (String.eqb x) l
  | None => false
  end.

(** the folder names that [init_workflow] and [init_subject_workflow] keep:
    the base names of the glob matches, filtered by [--subjects] or
    [--sessions] when that list is given and not empty *)
Definition select_folders (matches : list string) (wanted : option (list string))
  : list string :=
  List.map Path.basename
    (filter (fun path =>
               negb (truthy_list wanted) || member (Path.basename path) wanted)
       matches).

End Bids.

(** the options agree with each other: exactly one of single and two pass;
    two-pass and an added BET mask only without BET masking; inhomogeneity
    correction only with an added BET mask or without phase-based masking *)
Definition options_consistent (a : Qsm.Args) : Prop :=
  Qsm.single_pass a = negb (Qsm.two_pass a) /\
  (Qsm.two_pass a = true -> Qsm.contains "bet" (Qsm.masking a) = false) /\
  (Qsm.add_bet a = true -> Qsm.contains "bet" (Qsm.masking a) = false) /\
  (Qsm.inhomogeneity_correction a = true ->
     Qsm.add_bet a = true \/ Qsm.contains "phase-based" (Qsm.masking a) = false).

(** ** Runs used as concrete inputs *)

Module RunScenario.

(** the options as the parser leaves them for
    [run_2_qsm.py bids out --inhomogeneity_correction --add_bet --use_existing_masks] *)
Definition cli_args : Qsm.Args :=
  Qsm.mk_args "" Qsm.tgv_qsm true false false true true None None None 0.

(** the same options after [process_args] on a machine with 8 CPUs *)
Definition args : Qsm.Args := Qsm.process_args 8 cli_args.

Definition phases : list string :=
  [ "sub-1_run-1_echo-1_phase.nii"; "sub-1_run-1_echo-2_phase.nii" ]%string.
Definition params : list string :=
  [ "sub-1_run-1_echo-1_phase.json"; "sub-1_run-1_echo-2_phase.json" ]%string.
Definition magnitudes : list string :=
  [ "sub-1_run-1_echo-1_mag.nii"; "sub-1_run-1_echo-2_mag.nii" ]%string.
Definition one_mask : list string := [ "sub-1_run-1_mask.nii" ]%string.

(** what the file checks return for these options: with the one mask, and
    with neither magnitude nor mask files *)
Definition args_with_mask : Qsm.Args :=
  Qsm.mk_args "phase-based" Qsm.tgv_qsm false false true false true None
    (Some 8%Z) None 6.
Definition files_with_mask : Qsm.RunFiles :=
  Qsm.mk_files phases magnitudes params one_mask.
Definition args_without_magnitude : Qsm.Args :=
  Qsm.mk_args "phase-based" Qsm.tgv_qsm false true false false true None
    (Some 8%Z) None 6.
Definition files_without_magnitude : Qsm.RunFiles :=
  Qsm.mk_files phases [] params [].

End RunScenario.

(** ** Files used as concrete inputs *)

Module FileScenario.

(** magnitude and phase of one echo, stored under the same file name in two
    directories *)
Definition same_name_files : store :=
  [ ("/mag/echo1.nii"%string, Scenario.unit_mag);
    ("/phase/echo1.nii"%string, Scenario.unit_pha) ].

(** a magnitude and a phase volume of different shapes *)
Definition wide_pha : Nifti1Image :=
  mk_image (Scenario.constant (3, 3, 3)%nat (1 / 2))
    (Scenario.diag_affine 1 1 1) (mk_header (1, 1, 1) (3, 3, 3)%nat float32).

End FileScenario.

(** ['.' in s] *)
Fixpoint has_dot (s : string) : bool :=
  match s with
  | EmptyString => false
  | String c r => Path.is_char c "." || has_dot r
  end.

(** ** Predicates of the statements *)

(** nibabel hands out 4x4 affines *)
Definition is_affine44 (a : Np.matrix) : Prop := length a = 4%nat.

(** the 3x3 block is diagonal with positive diagonal entries *)
Definition positive_diagonal_block (a : Np.matrix) : Prop :=
  (forall i, (i < 3)%nat -> 0 < Np.mget a i i) /\
  (forall i j, (i < 3)%nat -> (j < 3)%nat -> i <> j -> Np.mget a i j == 0).



(** conditions under which the resampler accepts a source and a target *)
Definition invertible (m : Np.matrix) : bool :=
  match Affine.inv m with
  | Some _ => true
  | None => false
  end.

Definition in_field_of_view (img : Nifti1Image) (target_affine : Np.matrix) : bool :=
  match Affine.inv target_affine with
  | None => false
  | Some tinv =>
      let '(xmax, ymax, zmax) :=
        Affine.upper_bounds (shape (dataobj img)) (Affine.matmul tinv (affine img)) in
      Qle_bool 0 xmax && Qle_bool 0 ymax && Qle_bool 0 zmax
  end.

(** [v] is the value of some voxel of [a] *)
Definition is_label_of (a : ndarray) (v : R) : Prop :=
  exists i, in_bounds (shape a) i = true /\ at_ a i = v.

(** no voxel of [out] carries a value that [src] does not contain *)
Definition labels_preserved (src out : ndarray) : Prop :=
  forall o, in_bounds (shape out) o = true -> is_label_of src (at_ out o).

(** * Properties *)

(** ** Geometry builder *)

Lemma lt3_cases (i : nat) : (i < 3)%nat -> i = 0%nat \/ i = 1%nat \/ i = 2%nat.
Proof. lia. Qed.

(** C1: the target affine [T] built by [resample_to_axial] from spacing [s],
    shape [d] and affine [A] has the diagonal 3x3 block
    [s[i] * sign(diag(A)[i])], zero off-diagonal entries in that block,
    [T[3,3] = 1] and the translation [-sign(diag(A)[:3]) * (s * d / 2)]. *)
Theorem base_affine_entries (mag_nii : Nifti1Image) :
  is_affine44 (affine mag_nii) ->
  let T := base_affine_of mag_nii in
  let s := get_zooms (header mag_nii) in
  let d := get_data_shape (header mag_nii) in
  let A := affine mag_nii in
  (forall i, (i < 3)%nat ->
     Np.mget T i i == Np.vget s i * Np.sign (Np.mget A i i)) /\
  (forall i j, (i < 3)%nat -> (j < 3)%nat -> i <> j -> Np.mget T i j == 0) /\
  Np.mget T 3 3 == 1 /\
  (forall i, (i < 3)%nat ->
     Np.mget T i 3 == - Np.sign (Np.mget A i i) * (Np.vget s i * Np.vget d i / 2)).
Proof.
  destruct mag_nii as [data A [[[sx sy] sz] [[dx dy] dz] dt]].
  unfold is_affine44. cbn [affine header].
  destruct A as [|r0 [|r1 [|r2 [|r3 [|r4 A]]]]]; cbn [length]; try discriminate.
  intros _.
  split; [|split; [|split]].
  - intros i Hi. destruct (lt3_cases Hi) as [->|[->| ->]]; reflexivity.
  - intros i j Hi Hj Hij.
    destruct (lt3_cases Hi) as [->|[->| ->]];
    destruct (lt3_cases Hj) as [->|[->| ->]]; try congruence; reflexivity.
  - reflexivity.
  - intros i Hi.
    destruct (lt3_cases Hi) as [->|[->| ->]];
      unfold base_affine_of, Np.mget, Np.vget, get_zooms, get_data_shape;
      cbn -[Qmult Qdiv Qopp Np.sign inject_Z]; ring.
Qed.

Lemma base_affine_entries_witness :
  is_affine44 (affine Scenario.axial_mag) /\
  Np.mget (base_affine_of Scenario.axial_mag) 0 3 ==
    - Np.sign (Np.mget (affine Scenario.axial_mag) 0 0)
      * (Np.vget (get_zooms (header Scenario.axial_mag)) 0
         * Np.vget (get_data_shape (header Scenario.axial_mag)) 0 / 2).
Proof.
  split; [reflexivity|].
  apply (base_affine_entries Scenario.axial_mag); [reflexivity | lia].
Defined.

Example base_affine_axial :
  Np.array_equal (base_affine_of Scenario.axial_mag)
    [ [2; 0; 0; -(64)]; [0; 2; 0; -(64)]; [0; 0; 2; -(64)]; [0; 0; 0; 1] ]%Q = true.
Proof. vm_compute. reflexivity. Qed.

(** ** Obliquity gate *)

Lemma norm_nonneg (v : list R) : (0 <= Obliquity.norm v)%R.
Proof. unfold Obliquity.norm. apply sqrt_pos. Qed.

Lemma Rltb_true_iff (x y : R) : Rltb x y = true <-> (x < y)%R.
Proof. unfold Rltb. destruct (Rlt_dec x y); split; intros; try easy. Qed.

Lemma truthy_float_false_zero (t : Q) :
  truthy_float (Some t) = false -> Q2R t = 0%R.
Proof.
  unfold truthy_float. intros H. apply negb_false_iff in H.
  apply Qeq_bool_iff in H. rewrite (Qeq_eqR _ _ H). apply RMicromega.Q2R_0.
Qed.

Lemma gate_skips_iff (mag_nii : Nifti1Image) (thr : option Q) :
  gate_skips mag_nii thr = true <->
  exists t, thr = Some t /\ (obliquity_norm mag_nii < Q2R t)%R.
Proof.
  unfold gate_skips. destruct thr as [t|].
  - split.
    + intros H. apply andb_true_iff in H. destruct H as [_ H].
      exists t. split; [reflexivity | now apply Rltb_true_iff].
    + intros (t' & Ht & Hlt). injection Ht as <-.
      apply andb_true_iff. split; [| now apply Rltb_true_iff].
      destruct (truthy_float (Some t)) eqn:E; [reflexivity|].
      apply truthy_float_false_zero in E. rewrite E in Hlt.
      pose proof (norm_nonneg (map rad2deg (Obliquity.obliquity (affine mag_nii)))).
      unfold obliquity_norm in Hlt. lra.
  - split; [discriminate | intros (t & Ht & _); discriminate].
Qed.

Section GateProperties.

Variable fround : dtype -> R -> R.
Variable continuous_interp : ndarray -> Affine.point -> R.
Variable abspath : string -> string.

(** every volume that [resample_and_save] hands back has been saved on top
    of the files that were there *)
Lemma resample_and_save_grows (fs fs' : store) (mag_file pha_file : string)
    (mask_file : option string) (mag_nii pha_nii : Nifti1Image)
    (mask_nii : option Nifti1Image) (out : string * string * option string) :
  resample_and_save fround continuous_interp abspath fs mag_file pha_file
    mask_file mag_nii pha_nii mask_nii = Ok (out, fs') ->
  (List.length fs < List.length fs')%nat.
Proof.
  unfold resample_and_save.
  destruct (resample_to_axial fround continuous_interp mag_nii pha_nii mask_nii)
    as [[[mr pr] kr]|e]; cbn [bind]; [|discriminate].
  destruct kr, mask_file; intros H; injection H as _ <-;
    unfold nib_save; cbn [List.length]; lia.
Qed.

(** C2: once the three files are loaded, [resample_files] returns the
    original (mag_file, pha_file, mask_file) and leaves the files alone
    exactly when a threshold was supplied and the norm of the obliquity of the
    magnitude affine is strictly below it.  Otherwise, and in particular
    without a threshold, resampling proceeds: [resample_to_axial] is run on
    the loaded volumes, its failure is the failure of the call, and its
    volumes are saved under the resampled names, on top of the files that
    were there, and those names are returned. *)
Theorem resample_files_skips_iff
    (fs : store) (mag_file pha_file : string) (mask_file : option string)
    (thr : option Q) (mag_nii pha_nii : Nifti1Image) (mask_nii : option Nifti1Image) :
  nib_load fs mag_file = Ok mag_nii ->
  nib_load fs pha_file = Ok pha_nii ->
  load_mask fs mask_file = Ok mask_nii ->
  let skip := exists t, thr = Some t /\ (obliquity_norm mag_nii < Q2R t)%R in
  let call :=
    resample_files fround continuous_interp abspath fs mag_file pha_file
      mask_file thr in
  (gate_skips mag_nii thr = true <-> skip) /\
  (call = Ok ((mag_file, pha_file, mask_file), fs) <-> skip) /\
  (~ skip ->
     call = resample_and_save fround continuous_interp abspath fs mag_file pha_file
              mask_file mag_nii pha_nii mask_nii /\
     (forall e,
        resample_to_axial fround continuous_interp mag_nii pha_nii mask_nii
          = Raise e ->
        call = Raise e) /\
     (forall mr pr kr,
        resample_to_axial fround continuous_interp mag_nii pha_nii mask_nii
          = Ok (mr, pr, kr) ->
        exists third rest,
          call = Ok ((resampled_name abspath mag_file,
                      resampled_name abspath pha_file, third),
                     rest ++ nib_save pr (resampled_name abspath pha_file)
                               (nib_save mr (resampled_name abspath mag_file) fs)))) /\
  (thr = None -> ~ skip).
Proof.
  intros Hm Hp Hk skip call.
  pose proof (gate_skips_iff mag_nii thr) as G. fold skip in G.
  assert (Hcall : call
                  = if gate_skips mag_nii thr
                    then Ok ((mag_file, pha_file, mask_file), fs)
                    else resample_and_save fround continuous_interp abspath fs
                           mag_file pha_file mask_file mag_nii pha_nii mask_nii).
  { unfold call, resample_files. rewrite Hm, Hp, Hk. reflexivity. }
  split; [exact G|].
  split; [|split].
  - split.
    + intros Hc. destruct (gate_skips mag_nii thr) eqn:E; [now apply G|].
      rewrite Hcall in Hc. apply resample_and_save_grows in Hc. lia.
    + intros Hs. apply G in Hs. rewrite Hcall, Hs. reflexivity.
  - intros Hn.
    assert (E : gate_skips mag_nii thr = false).
    { destruct (gate_skips mag_nii thr) eqn:E; [|reflexivity].
      exfalso. apply Hn. now apply G. }
    rewrite Hcall, E. split; [reflexivity|]. split.
    + intros e He. unfold resample_and_save. rewrite He. reflexivity.
    + intros mr pr kr Hr. unfold resample_and_save. rewrite Hr. cbn [bind].
      destruct kr as [km|], mask_file as [f|].
      * exists (Some (resampled_name abspath f)),
          [(resampled_name abspath f, km)]. reflexivity.
      * exists (Some "placeholder"%string), []. reflexivity.
      * exists (Some "placeholder"%string), []. reflexivity.
      * exists (Some "placeholder"%string), []. reflexivity.
  - intros -> (t & Ht & _). discriminate.
Qed.

End GateProperties.

Section DiagonalAffine.

Variable a : Np.matrix.
Hypothesis Hdiag : positive_diagonal_block a.

Lemma entry_diag_pos (i : nat) : (i < 3)%nat -> (0 < Obliquity.entry a i i)%R.
Proof.
  intros Hi. destruct Hdiag as [Hpos _]. specialize (Hpos i Hi).
  unfold Obliquity.entry. apply Qlt_Rlt in Hpos.
  rewrite RMicromega.Q2R_0 in Hpos. exact Hpos.
Qed.

Lemma entry_off_zero (i j : nat) :
  (i < 3)%nat -> (j < 3)%nat -> i <> j -> Obliquity.entry a i j = 0%R.
Proof.
  intros Hi Hj Hij. destruct Hdiag as [_ Hz]. specialize (Hz i j Hi Hj Hij).
  unfold Obliquity.entry. rewrite (Qeq_eqR _ _ Hz). apply RMicromega.Q2R_0.
Qed.

Lemma voxel_size_diag (j : nat) :
  (j < 3)%nat -> Obliquity.voxel_size a j = Obliquity.entry a j j.
Proof.
  intros Hj. unfold Obliquity.voxel_size.
  pose proof (entry_diag_pos Hj) as Hp.
  destruct (lt3_cases Hj) as [->|[->| ->]].
  - rewrite (@entry_off_zero 1 0), (@entry_off_zero 2 0) by lia.
    replace (_ + _ + _)%R with (Obliquity.entry a 0 0 * Obliquity.entry a 0 0)%R by ring.
    apply sqrt_square. lra.
  - rewrite (@entry_off_zero 0 1), (@entry_off_zero 2 1) by lia.
    replace (_ + _ + _)%R with (Obliquity.entry a 1 1 * Obliquity.entry a 1 1)%R by ring.
    apply sqrt_square. lra.
  - rewrite (@entry_off_zero 0 2), (@entry_off_zero 1 2) by lia.
    replace (_ + _ + _)%R with (Obliquity.entry a 2 2 * Obliquity.entry a 2 2)%R by ring.
    apply sqrt_square. lra.
Qed.

Lemma cosine_diag (i : nat) :
  (i < 3)%nat -> Rabs (Obliquity.entry a i i / Obliquity.voxel_size a i) = 1%R.
Proof.
  intros Hi. rewrite (voxel_size_diag Hi).
  pose proof (entry_diag_pos Hi) as Hp.
  replace (_ / _)%R with 1%R by (field; lra).
  apply Rabs_R1.
Qed.

Lemma cosine_off (i j : nat) :
  (i < 3)%nat -> (j < 3)%nat -> i <> j ->
  Rabs (Obliquity.entry a i j / Obliquity.voxel_size a j) = 0%R.
Proof.
  intros Hi Hj Hij. rewrite (entry_off_zero Hi Hj Hij).
  unfold Rdiv. rewrite Rmult_0_l. apply Rabs_R0.
Qed.

Lemma best_cosine_diag (i : nat) : (i < 3)%nat -> Obliquity.best_cosine a i = 1%R.
Proof.
  intros Hi. unfold Obliquity.best_cosine.
  destruct (lt3_cases Hi) as [->|[->| ->]].
  - rewrite (@cosine_diag 0), (@cosine_off 0 1), (@cosine_off 0 2) by lia.
    rewrite (Rmax_left 1 0) by lra. rewrite Rmax_left; lra.
  - rewrite (@cosine_diag 1), (@cosine_off 1 0), (@cosine_off 1 2) by lia.
    rewrite (Rmax_right 0 1) by lra. rewrite Rmax_left; lra.
  - rewrite (@cosine_diag 2), (@cosine_off 2 0), (@cosine_off 2 1) by lia.
    rewrite (Rmax_left 0 0) by lra. rewrite Rmax_right; lra.
Qed.

Lemma obliquity_diag : Obliquity.obliquity a = [0; 0; 0]%R.
Proof.
  unfold Obliquity.obliquity.
  rewrite !best_cosine_diag by lia. rewrite acos_1. reflexivity.
Qed.

Lemma obliquity_norm_diag :
  Obliquity.norm (map rad2deg (Obliquity.obliquity a)) = 0%R.
Proof.
  rewrite obliquity_diag. unfold Obliquity.norm, rad2deg. cbn [map fold_right].
  replace (_ + _)%R with 0%R by (unfold Rdiv; ring).
  apply sqrt_0.
Qed.

End DiagonalAffine.

(** C3: the decision of the obliquity gate depends on the magnitude affine
    and the threshold only; and for an affine whose 3x3 block is diagonal
    with positive entries the obliquity norm is 0, so the gate skips for every
    strictly positive threshold. *)
Theorem gate_deterministic_and_axial_skips :
  (forall (m1 m2 : Nifti1Image) (thr : option Q),
     affine m1 = affine m2 -> gate_skips m1 thr = gate_skips m2 thr) /\
  (forall (m : Nifti1Image),
     positive_diagonal_block (affine m) ->
     obliquity_norm m = 0%R /\
     forall t : Q, 0 < t -> gate_skips m (Some t) = true).
Proof.
  split.
  - intros m1 m2 thr E. unfold gate_skips, obliquity_norm. now rewrite E.
  - intros m Hd.
    assert (N : obliquity_norm m = 0%R) by (apply obliquity_norm_diag; exact Hd).
    split; [exact N|].
    intros t Ht. apply gate_skips_iff. exists t. split; [reflexivity|].
    rewrite N. apply Qlt_Rlt in Ht. now rewrite RMicromega.Q2R_0 in Ht.
Qed.

Lemma axial_positive_diagonal :
  positive_diagonal_block (affine Scenario.axial_mag).
Proof.
  split.
  - intros i Hi. destruct (lt3_cases Hi) as [->|[->| ->]]; reflexivity.
  - intros i j Hi Hj Hij.
    destruct (lt3_cases Hi) as [->|[->| ->]];
    destruct (lt3_cases Hj) as [->|[->| ->]]; try congruence; reflexivity.
Qed.

Lemma gate_deterministic_and_axial_skips_witness :
  positive_diagonal_block (affine Scenario.axial_mag) /\ 0 < 10 /\
  gate_skips Scenario.axial_mag (Some 10) = true.
Proof.
  split; [exact axial_positive_diagonal|]. split; [reflexivity|].
  apply (proj2 gate_deterministic_and_axial_skips Scenario.axial_mag
           axial_positive_diagonal).
  reflexivity.
Defined.

Lemma resample_files_skips_iff_witness :
  resample_files Scenario.fround_id Scenario.interp0 Scenario.abspath_root
    Scenario.files "sub-1_mag.nii.gz" "sub-1_phase.nii.gz" None (Some 10)
  = Ok (("sub-1_mag.nii.gz"%string, "sub-1_phase.nii.gz"%string, None), Scenario.files).
Proof.
  apply (proj1 (proj2 (resample_files_skips_iff Scenario.fround_id
                         Scenario.interp0 Scenario.abspath_root Scenario.files
                         "sub-1_mag.nii.gz" "sub-1_phase.nii.gz" None (Some 10)
                         (mag_nii := Scenario.axial_mag)
                         (pha_nii := Scenario.axial_pha)
                         (mask_nii := None) eq_refl eq_refl eq_refl))).
  exists 10. split; [reflexivity|].
  unfold obliquity_norm.
  rewrite (obliquity_norm_diag axial_positive_diagonal).
  unfold Q2R. cbn. lra.
Defined.

(** ** Complex decomposition and recomposition *)

Lemma broadcast_same (s : shape3) : Arr.broadcast_shapes s s = Some s.
Proof.
  destruct s as [[a b] c]. unfold Arr.broadcast_shapes, Arr.broadcast_dim.
  now rewrite !Nat.eqb_refl.
Qed.

Lemma bidx_in_bounds (s : shape3) (i : index) :
  in_bounds s i = true -> Arr.bidx s i = i.
Proof.
  destruct s as [[a b] c], i as [[x y] z]. unfold in_bounds, Arr.bidx.
  intros H. apply andb_true_iff in H. destruct H as [H Hz].
  apply andb_true_iff in H. destruct H as [Hx Hy].
  apply Nat.ltb_lt in Hx, Hy, Hz.
  destruct (Nat.eqb_spec a 1), (Nat.eqb_spec b 1), (Nat.eqb_spec c 1);
    repeat f_equal; lia.
Qed.

Lemma map2_same_shape (f : R -> R -> R) (a b : ndarray) :
  shape a = shape b ->
  Arr.map2 f a b
  = Ok (mk_ndarray (shape a)
          (fun i => f (at_ a (Arr.bidx (shape a) i)) (at_ b (Arr.bidx (shape b) i)))).
Proof.
  intros E. unfold Arr.map2. rewrite <- E, broadcast_same. reflexivity.
Qed.

(** C4: decomposition yields real = magnitude * cos(phase) and
    imag = magnitude * sin(phase); both volumes have a floating-point storage
    type and carry the affine of the phase volume. *)
Theorem decompose_real_imag (mag_nii pha_nii : Nifti1Image) :
  shape (dataobj mag_nii) = shape (dataobj pha_nii) ->
  exists real_nii imag_nii,
    decompose mag_nii pha_nii = Ok (real_nii, imag_nii) /\
    shape (dataobj real_nii) = shape (dataobj pha_nii) /\
    shape (dataobj imag_nii) = shape (dataobj pha_nii) /\
    (forall i, in_bounds (shape (dataobj pha_nii)) i = true ->
       at_ (dataobj real_nii) i
         = (at_ (dataobj mag_nii) i * cos (at_ (dataobj pha_nii) i))%R /\
       at_ (dataobj imag_nii) i
         = (at_ (dataobj mag_nii) i * sin (at_ (dataobj pha_nii) i))%R) /\
    is_floating (data_dtype (header real_nii)) = true /\
    is_floating (data_dtype (header imag_nii)) = true /\
    affine real_nii = affine pha_nii /\
    affine imag_nii = affine pha_nii.
Proof.
  intros E. unfold decompose.
  rewrite !map2_same_shape by exact E. cbn [bind].
  eexists. eexists. split; [reflexivity|].
  cbn [dataobj new_Nifti1Image shape at_ header affine data_dtype set_data_dtype
       is_floating Arr.map].
  repeat split; try (now symmetry); try assumption.
  - rewrite E, (bidx_in_bounds _ _ H). reflexivity.
  - rewrite E, (bidx_in_bounds _ _ H). reflexivity.
Qed.

Lemma decompose_real_imag_witness :
  exists real_nii imag_nii,
    decompose Scenario.axial_mag Scenario.axial_pha = Ok (real_nii, imag_nii) /\
    at_ (dataobj real_nii) (3, 4, 5)%nat = (100 * cos (1 / 2))%R /\
    affine imag_nii = affine Scenario.axial_pha.
Proof.
  destruct (decompose_real_imag Scenario.axial_mag Scenario.axial_pha eq_refl)
    as (re & im & Hd & _ & _ & Hv & _ & _ & _ & Ha).
  exists re, im. split; [exact Hd|]. split; [|exact Ha].
  exact (proj1 (Hv (3, 4, 5)%nat eq_refl)).
Defined.

Section Recomposition.

Variable fround : dtype -> R -> R.
Variable continuous_interp : ndarray -> Affine.point -> R.

(** the shape of a resampled volume is fixed by the geometry of its source *)
Lemma resample_img_shape (a b a' b' : Nifti1Image) (t : Np.matrix)
    (ts : option shape3) (k k' : interpolation) :
  shape (dataobj a) = shape (dataobj b) ->
  affine a = affine b ->
  resample_img continuous_interp a t ts k = Ok a' ->
  resample_img continuous_interp b t ts k' = Ok b' ->
  shape (dataobj a') = shape (dataobj b') /\ affine a' = t /\ affine b' = t.
Proof.
  intros Es Ea. unfold resample_img. rewrite <- Es, <- Ea.
  destruct (Affine.inv t) as [tinv|]; [|discriminate].
  destruct (Affine.upper_bounds _ _) as [[xmax ymax] zmax].
  destruct (negb _ || negb _ || negb _); [discriminate|].
  destruct (Affine.inv (affine a)) as [sinv|]; [|discriminate].
  intros H1 H2. injection H1 as <-. injection H2 as <-.
  cbn. repeat split.
Qed.

(** C5: recomposition computes magnitude' = round(hypot(real', imag')) cast
    to the storage type of the original magnitude volume, the rounding to an
    integer being applied before the cast whatever that type is, and
    phase' = arctan2(imag', real') cast to float16. *)
Theorem recompose_rounds_then_casts
    (mag_nii pha_nii real_rot_nii imag_rot_nii : Nifti1Image) :
  shape (dataobj real_rot_nii) = shape (dataobj imag_rot_nii) ->
  exists mag_rot_nii pha_rot_nii,
    recompose fround mag_nii pha_nii real_rot_nii imag_rot_nii
      = Ok (mag_rot_nii, pha_rot_nii) /\
    (forall i, in_bounds (shape (dataobj real_rot_nii)) i = true ->
       let re := at_ (dataobj real_rot_nii) i in
       let im := at_ (dataobj imag_rot_nii) i in
       at_ (dataobj mag_rot_nii) i
         = astype fround (data_dtype (header mag_nii)) (np_round (hypot re im)) /\
       (exists n : Z,
          at_ (dataobj mag_rot_nii) i
            = astype fround (data_dtype (header mag_nii)) (IZR n)) /\
       at_ (dataobj pha_rot_nii) i = astype fround float16 (arctan2 im re)) /\
    data_dtype (header mag_rot_nii) = data_dtype (header mag_nii).
Proof.
  intros E. unfold recompose.
  rewrite map2_same_shape by exact E.
  rewrite map2_same_shape by (symmetry; exact E).
  cbn [bind]. eexists. eexists. split; [reflexivity|].
  cbn [dataobj new_Nifti1Image shape at_ header data_dtype Arr.map].
  split; [|reflexivity].
  intros i Hi.
  assert (Hi' : in_bounds (shape (dataobj imag_rot_nii)) i = true)
    by (rewrite <- E; exact Hi).
  rewrite (bidx_in_bounds _ _ Hi), (bidx_in_bounds _ _ Hi').
  split; [reflexivity|]. split; [|reflexivity].
  eexists. reflexivity.
Qed.

End Recomposition.

Lemma recompose_rounds_then_casts_witness :
  exists mag_rot_nii pha_rot_nii,
    recompose Scenario.fround_id Scenario.unit_mag Scenario.unit_pha
      Scenario.unit_mag Scenario.unit_pha = Ok (mag_rot_nii, pha_rot_nii) /\
    data_dtype (header mag_rot_nii) = int16.
Proof.
  destruct (recompose_rounds_then_casts Scenario.fround_id Scenario.unit_mag
              Scenario.unit_pha Scenario.unit_mag Scenario.unit_pha eq_refl)
    as (m & p & Hr & _ & Hd).
  exists m, p. split; [exact Hr | exact Hd].
Defined.

(** ** Real-number facts behind the round trip *)

Section RealFacts.

Local Open Scope R_scope.















End RealFacts.

(** ** Round trip *)

Section RoundTrip.

Variable fround : dtype -> R -> R.
Local Open Scope R_scope.



End RoundTrip.



(** ** The resampler *)

Section ResamplerFacts.

Variable continuous_interp : ndarray -> Affine.point -> R.

Lemma resample_img_returns (img : Nifti1Image) (t : Np.matrix)
    (ts : option shape3) (k : interpolation) :
  invertible (affine img) = true ->
  in_field_of_view img t = true ->
  exists r sinv,
    Affine.inv (affine img) = Some sinv /\
    resample_img continuous_interp img t ts k = Ok r /\
    affine r = t /\
    (forall s, ts = Some s -> shape (dataobj r) = s) /\
    forall o, at_ (dataobj r) o
              = sample continuous_interp k (dataobj img)
                  (Affine.apply (Affine.matmul sinv t) (Affine.of_index o)).
Proof.
  unfold invertible, in_field_of_view, resample_img.
  destruct (Affine.inv (affine img)) as [sinv|]; [intros _|discriminate].
  destruct (Affine.inv t) as [tinv|]; [|discriminate].
  destruct (Affine.upper_bounds _ _) as [[xmax ymax] zmax].
  intros H. apply andb_true_iff in H. destruct H as [H Hz].
  apply andb_true_iff in H. destruct H as [Hx Hy].
  rewrite Hx, Hy, Hz. cbn [negb orb].
  eexists. exists sinv. split; [reflexivity|]. split; [reflexivity|].
  cbn [new_Nifti1Image affine dataobj shape at_].
  split; [reflexivity|]. split; [|reflexivity].
  intros s E. now rewrite E.
Qed.

Lemma resample_img_singular (img : Nifti1Image) (t : Np.matrix)
    (ts : option shape3) (k : interpolation) :
  invertible t = false ->
  resample_img continuous_interp img t ts k = Raise LinAlgError.
Proof.
  unfold invertible, resample_img.
  destruct (Affine.inv t); [discriminate | reflexivity].
Qed.

Lemma resample_img_raises (img : Nifti1Image) (t : Np.matrix)
    (ts : option shape3) (k : interpolation) (e : Exn) :
  resample_img continuous_interp img t ts k = Raise e ->
  e = LinAlgError \/ e = BoundingBoxError.
Proof.
  unfold resample_img.
  destruct (Affine.inv t); [|intros H; injection H as <-; now left].
  destruct (Affine.upper_bounds _ _) as [[xmax ymax] zmax].
  destruct (negb _ || negb _ || negb _); [intros H; injection H as <-; now right|].
  destruct (Affine.inv (affine img)); [discriminate|].
  intros H; injection H as <-; now left.
Qed.

Lemma nearest_interp_label_or_zero (a : ndarray) (p : Affine.point) :
  nearest_interp a p = 0%R \/ is_label_of a (nearest_interp a p).
Proof.
  unfold nearest_interp.
  destruct (inside (shape a) (nearest_voxel p)) eqn:E; [right | now left].
  exists (to_index (nearest_voxel p)). split; [|reflexivity].
  destruct (nearest_voxel p) as [[x y] z], (shape a) as [[dx dy] dz].
  unfold inside in E. unfold in_bounds, to_index.
  repeat (apply andb_true_iff in E; destruct E as [E ?]).
  repeat (apply andb_true_iff; split); apply Nat.ltb_lt; lia.
Qed.


(** C8, as amended: every voxel of a volume resampled with nearest-neighbour
    interpolation carries either the fill value 0 or a value of some voxel of
    the source. *)
Theorem nearest_resampling_labels (img : Nifti1Image) (t : Np.matrix)
    (ts : option shape3) :
  invertible (affine img) = true ->
  in_field_of_view img t = true ->
  exists r,
    resample_img continuous_interp img t ts nearest = Ok r /\
    forall o, at_ (dataobj r) o = 0%R \/ is_label_of (dataobj img) (at_ (dataobj r) o).
Proof.
  intros Hinv Hfov.
  destruct (resample_img_returns img t ts nearest Hinv Hfov)
    as (r & sinv & _ & Hres & _ & _ & Hv).
  exists r. split; [exact Hres|].
  intros o. rewrite Hv. cbn [sample]. apply nearest_interp_label_or_zero.
Qed.

End ResamplerFacts.


Example resample_like_fast_path :
  resample_like Scenario.interp0 Scenario.abspath_root Scenario.files
    "u_mask.nii" "u_mag.nii" nearest
  = Ok ("u_mask.nii"%string, Scenario.files).
Proof. reflexivity. Qed.

Lemma nearest_resampling_labels_witness :
  exists r,
    resample_img Scenario.interp0 Scenario.unit_mask
      (base_affine_of Scenario.unit_mag) None nearest = Ok r /\
    forall o, at_ (dataobj r) o = 0%R
              \/ is_label_of (dataobj Scenario.unit_mask) (at_ (dataobj r) o).
Proof.
  exact (nearest_resampling_labels Scenario.interp0 Scenario.unit_mask
           (base_affine_of Scenario.unit_mag) None eq_refl eq_refl).
Defined.

(** C8 as stated fails: the mask that labels every voxel 1, resampled the way
    [resample_to_axial] resamples a mask, gets a 3x3x3 grid whose voxel
    (0,0,0) lies outside the source and is filled with 0, a label the source
    does not contain. *)
Lemma mask_zero_fill_counterexample :
  exists r,
    resample_img Scenario.interp0 Scenario.unit_mask
      (base_affine_of Scenario.unit_mag) None nearest = Ok r /\
    shape (dataobj r) = (3, 3, 3)%nat /\
    at_ (dataobj r) (0, 0, 0)%nat = 0%R /\
    ~ labels_preserved (dataobj Scenario.unit_mask) (dataobj r).
Proof.
  destruct (resample_img_returns Scenario.interp0 Scenario.unit_mask
              (base_affine_of Scenario.unit_mag) None nearest eq_refl eq_refl)
    as (r & sinv & Hs & Hres & _ & _ & Hv).
  exists r. split; [exact Hres|].
  assert (Hshape : shape (dataobj r) = (3, 3, 3)%nat).
  { lazy in Hres; injection Hres as <-; reflexivity. }
  assert (H0 : at_ (dataobj r) (0, 0, 0)%nat = 0%R).
  { rewrite Hv. lazy in Hs; injection Hs as <-; reflexivity. }
  split; [exact Hshape|]. split; [exact H0|].
  intros H.
  destruct (H (0, 0, 0)%nat) as (i & _ & Hi).
  - rewrite Hshape. reflexivity.
  - rewrite H0 in Hi. cbn in Hi. lra.
Qed.

(** ** Failure behaviour of [resample_to_axial] *)

Lemma sign_zero_iff (x : Q) : Np.sign x == 0 <-> x == 0.
Proof.
  unfold Np.sign, Qeq. destruct x as [n d]. cbn.
  rewrite !Z.mul_1_r. destruct n; cbn; split; intros H; try reflexivity;
    discriminate.
Qed.

Lemma invertible_false_iff (m : Np.matrix) :
  invertible m = false <-> Affine.det3 m == 0.
Proof.
  unfold invertible, Affine.inv.
  destruct (Qeq_bool (Affine.det3 m) 0) eqn:E.
  - apply Qeq_bool_iff in E. split; [intros _; exact E | reflexivity].
  - split; [discriminate|]. intros H. apply Qeq_bool_iff in H. congruence.
Qed.

(** the determinant of the block of the target affine is the product of its
    diagonal *)
Lemma det3_base_affine (mag_nii : Nifti1Image) :
  is_affine44 (affine mag_nii) ->
  let s := get_zooms (header mag_nii) in
  let A := affine mag_nii in
  Affine.det3 (base_affine_of mag_nii)
  == (Np.vget s 0 * Np.sign (Np.mget A 0 0))
     * (Np.vget s 1 * Np.sign (Np.mget A 1 1))
     * (Np.vget s 2 * Np.sign (Np.mget A 2 2)).
Proof.
  destruct mag_nii as [data A [[[sx sy] sz] [[dx dy] dz] dt]].
  unfold is_affine44. cbn [affine header].
  destruct A as [|r0 [|r1 [|r2 [|r3 [|r4 A]]]]]; cbn [length]; try discriminate.
  intros _.
  unfold Affine.det3, base_affine_of, Np.mget, Np.vget, get_zooms, get_data_shape.
  cbn -[Qmult Qdiv Qopp Qplus Qminus Np.sign inject_Z]. ring.
Qed.

Lemma base_affine_singular_iff (mag_nii : Nifti1Image) :
  is_affine44 (affine mag_nii) ->
  (Affine.det3 (base_affine_of mag_nii) == 0 <->
   exists i, (i < 3)%nat /\
     (Np.vget (get_zooms (header mag_nii)) i == 0
      \/ Np.mget (affine mag_nii) i i == 0)).
Proof.
  intros Hwf. rewrite (det3_base_affine mag_nii Hwf). cbv zeta.
  split.
  - intros H.
    apply Qmult_integral in H. destruct H as [H|H];
      [apply Qmult_integral in H; destruct H as [H|H]|];
      apply Qmult_integral in H.
    + exists 0%nat. split; [lia|].
      destruct H as [H|H]; [left; exact H | right; apply sign_zero_iff; exact H].
    + exists 1%nat. split; [lia|].
      destruct H as [H|H]; [left; exact H | right; apply sign_zero_iff; exact H].
    + exists 2%nat. split; [lia|].
      destruct H as [H|H]; [left; exact H | right; apply sign_zero_iff; exact H].
  - intros (i & Hi & H).
    assert (H' : Np.vget (get_zooms (header mag_nii)) i == 0
                 \/ Np.sign (Np.mget (affine mag_nii) i i) == 0).
    { destruct H as [H|H]; [left; exact H | right; apply sign_zero_iff; exact H]. }
    destruct (lt3_cases Hi) as [->|[->| ->]]; destruct H' as [E|E]; rewrite E; ring.
Qed.

Section FailureFacts.

Variable fround : dtype -> R -> R.
Variable continuous_interp : ndarray -> Affine.point -> R.
Variable abspath : string -> string.

Lemma map2_raises (f : R -> R -> R) (a b : ndarray) (e : Exn) :
  Arr.map2 f a b = Raise e -> e = ValueError.
Proof.
  unfold Arr.map2. destruct (Arr.broadcast_shapes _ _); [discriminate|].
  intros H. now injection H as <-.
Qed.

Lemma decompose_raises (mag_nii pha_nii : Nifti1Image) (e : Exn) :
  decompose mag_nii pha_nii = Raise e -> e = ValueError.
Proof.
  unfold decompose.
  destruct (Arr.map2 Rmult (dataobj mag_nii) (Arr.map cos (dataobj pha_nii))) eqn:E1;
    cbn [bind]; [|intros H; injection H as <-; exact (map2_raises _ _ _ E1)].
  destruct (Arr.map2 Rmult (dataobj mag_nii) (Arr.map sin (dataobj pha_nii))) eqn:E2;
    cbn [bind]; [discriminate|].
  intros H; injection H as <-; exact (map2_raises _ _ _ E2).
Qed.

Lemma recompose_raises (mag_nii pha_nii re im : Nifti1Image) (e : Exn) :
  recompose fround mag_nii pha_nii re im = Raise e -> e = ValueError.
Proof.
  unfold recompose.
  destruct (Arr.map2 hypot (dataobj re) (dataobj im)) eqn:E1;
    cbn [bind]; [|intros H; injection H as <-; exact (map2_raises _ _ _ E1)].
  destruct (Arr.map2 arctan2 (dataobj im) (dataobj re)) eqn:E2;
    cbn [bind]; [discriminate|].
  intros H; injection H as <-; exact (map2_raises _ _ _ E2).
Qed.

Lemma resample_to_axial_raises (mag_nii pha_nii : Nifti1Image)
    (mask_nii : option Nifti1Image) (e : Exn) :
  resample_to_axial fround continuous_interp mag_nii pha_nii mask_nii = Raise e ->
  e = ValueError \/ e = LinAlgError \/ e = BoundingBoxError.
Proof.
  unfold resample_to_axial.
  destruct (decompose mag_nii pha_nii) as [[re im]|e0] eqn:Ed; cbn [bind];
    [|intros H; injection H as <-; left; exact (decompose_raises _ _ Ed)].
  destruct (resample_img continuous_interp re _ None continuous) as [re'|e0] eqn:E1;
    cbn [bind];
    [|intros H; injection H as <-; right; exact (resample_img_raises _ _ _ _ _ E1)].
  destruct (resample_img continuous_interp im _ None continuous) as [im'|e0] eqn:E2;
    cbn [bind];
    [|intros H; injection H as <-; right; exact (resample_img_raises _ _ _ _ _ E2)].
  destruct mask_nii as [mk|].
  - destruct (resample_img continuous_interp mk _ None nearest) as [mk'|e0] eqn:E3;
      cbn [bind];
      [|intros H; injection H as <-; right; exact (resample_img_raises _ _ _ _ _ E3)].
    destruct (recompose fround mag_nii pha_nii re' im') as [[m p]|e0] eqn:Er;
      cbn [bind]; [discriminate|].
    intros H; injection H as <-; left; exact (recompose_raises _ _ _ _ Er).
  - cbn [bind].
    destruct (recompose fround mag_nii pha_nii re' im') as [[m p]|e0] eqn:Er;
      cbn [bind]; [discriminate|].
    intros H; injection H as <-; left; exact (recompose_raises _ _ _ _ Er).
Qed.

(** C9, as amended: [resample_to_axial] validates nothing and never raises a
    GeometryError.  The block of the target affine is singular exactly when
    a spacing or a diagonal entry of the source affine is zero; then, for
    equally shaped magnitude and phase, the call fails with the LinAlgError
    of the resampler's matrix inversion, and [resample_files] fails with it
    before saving anything. *)
Theorem singular_target_raises_linalg (mag_nii pha_nii : Nifti1Image)
    (mask_nii : option Nifti1Image) :
  resample_to_axial fround continuous_interp mag_nii pha_nii mask_nii
    <> Raise GeometryError /\
  (is_affine44 (affine mag_nii) ->
   shape (dataobj mag_nii) = shape (dataobj pha_nii) ->
   (exists i, (i < 3)%nat /\
      (Np.vget (get_zooms (header mag_nii)) i == 0
       \/ Np.mget (affine mag_nii) i i == 0)) ->
   resample_to_axial fround continuous_interp mag_nii pha_nii mask_nii
     = Raise LinAlgError /\
   forall fs mag_file pha_file mask_file,
     resample_and_save fround continuous_interp abspath fs mag_file pha_file
       mask_file mag_nii pha_nii mask_nii = Raise LinAlgError).
Proof.
  split.
  - intros H. apply resample_to_axial_raises in H.
    destruct H as [H|[H|H]]; discriminate.
  - intros Hwf Hs Hz.
    assert (Hsing : invertible (base_affine_of mag_nii) = false).
    { apply invertible_false_iff. now apply base_affine_singular_iff. }
    assert (Hr : resample_to_axial fround continuous_interp mag_nii pha_nii mask_nii
                 = Raise LinAlgError).
    { unfold resample_to_axial, decompose.
      rewrite !map2_same_shape by exact Hs. cbn [bind].
      rewrite resample_img_singular by exact Hsing. reflexivity. }
    split; [exact Hr|].
    intros fs mag_file pha_file mask_file.
    unfold resample_and_save. rewrite Hr. reflexivity.
Qed.

End FailureFacts.

Lemma singular_target_raises_linalg_witness :
  resample_to_axial Scenario.fround_id Scenario.interp0
    Scenario.sagittal_mag Scenario.sagittal_pha None = Raise LinAlgError.
Proof.
  apply (proj2 (singular_target_raises_linalg Scenario.fround_id Scenario.interp0
                  Scenario.abspath_root Scenario.sagittal_mag Scenario.sagittal_pha
                  None)).
  - reflexivity.
  - reflexivity.
  - exists 0%nat. split; [lia|]. right. reflexivity.
Defined.

(** C9 as stated fails: for a sagittal acquisition the diagonal of the
    affine is zero and the target affine is singular, yet the failure of
    [resample_to_axial] is not a GeometryError. *)
Lemma geometry_error_counterexample :
  invertible (base_affine_of Scenario.sagittal_mag) = false /\
  resample_to_axial Scenario.fround_id Scenario.interp0
    Scenario.sagittal_mag Scenario.sagittal_pha None <> Raise GeometryError.
Proof.
  split; [reflexivity|].
  intros H. apply resample_to_axial_raises in H.
  destruct H as [H|[H|H]]; discriminate.
Qed.

(** ** The mask placeholder of [resample_files] *)

Section Placeholder.

Variable fround : dtype -> R -> R.
Variable continuous_interp : ndarray -> Affine.point -> R.
Variable abspath : string -> string.

Lemma in_field_of_view_geometry (a b : Nifti1Image) (t : Np.matrix) :
  shape (dataobj a) = shape (dataobj b) -> affine a = affine b ->
  in_field_of_view a t = in_field_of_view b t.
Proof. intros Es Ea. unfold in_field_of_view. now rewrite Es, Ea. Qed.

(** without a mask, for geometry the resampler accepts, [resample_to_axial]
    returns, and it returns no mask *)
Lemma resample_to_axial_returns (mag_nii pha_nii : Nifti1Image) :
  shape (dataobj mag_nii) = shape (dataobj pha_nii) ->
  invertible (affine pha_nii) = true ->
  in_field_of_view pha_nii (base_affine_of mag_nii) = true ->
  exists m p,
    resample_to_axial fround continuous_interp mag_nii pha_nii None = Ok (m, p, None).
Proof.
  intros Es Hinv Hfov. unfold resample_to_axial, decompose.
  rewrite !map2_same_shape by exact Es. cbn [bind].
  set (cplx_header := set_data_dtype (header mag_nii) float32).
  set (T := base_affine_of mag_nii) in *.
  match goal with
  | |- context [resample_img _ ?re T None continuous] => set (real_nii := re)
  end.
  match goal with
  | |- context [bind (resample_img _ ?im T None continuous) _] =>
      lazymatch im with
      | real_nii => fail
      | _ => set (imag_nii := im)
      end
  end.
  assert (Hre : in_field_of_view real_nii T = true).
  { rewrite <- Hfov. apply in_field_of_view_geometry; [exact Es | reflexivity]. }
  assert (Him : in_field_of_view imag_nii T = true).
  { rewrite <- Hfov. apply in_field_of_view_geometry; [exact Es | reflexivity]. }
  destruct (resample_img_returns continuous_interp real_nii T None continuous Hinv Hre)
    as (re' & s1 & _ & Hr1 & _).
  destruct (resample_img_returns continuous_interp imag_nii T None continuous Hinv Him)
    as (im' & s2 & _ & Hr2 & _).
  rewrite Hr1. cbn [bind]. rewrite Hr2. cbn [bind].
  destruct (resample_img_shape continuous_interp real_nii imag_nii T None
              continuous continuous eq_refl eq_refl Hr1 Hr2) as (Hsh & _ & _).
  unfold recompose.
  rewrite map2_same_shape by exact Hsh.
  rewrite map2_same_shape by (symmetry; exact Hsh).
  cbn [bind]. eexists. eexists. reflexivity.
Qed.

Lemma resample_to_axial_no_mask (mag_nii pha_nii m p : Nifti1Image)
    (k : option Nifti1Image) :
  resample_to_axial fround continuous_interp mag_nii pha_nii None = Ok (m, p, k) ->
  k = None.
Proof.
  unfold resample_to_axial.
  destruct (decompose mag_nii pha_nii) as [[re im]|]; cbn [bind]; [|discriminate].
  destruct (resample_img _ re _ None continuous); cbn [bind]; [|discriminate].
  destruct (resample_img _ im _ None continuous); cbn [bind]; [|discriminate].
  destruct (recompose _ _ _ _ _) as [[m0 p0]|]; cbn [bind]; [|discriminate].
  intros H. now injection H as _ _ <-.
Qed.

(** C10: when no mask file is supplied and the obliquity gate does not skip,
    the third element of the triple that [resample_files] returns is the
    string "placeholder"; and the call does return whenever
    [resample_to_axial] does. *)
Theorem no_mask_gives_placeholder (fs : store) (mag_file pha_file : string)
    (mask_file : option string) (thr : option Q) (mag_nii pha_nii : Nifti1Image) :
  nib_load fs mag_file = Ok mag_nii ->
  nib_load fs pha_file = Ok pha_nii ->
  truthy_path mask_file = false ->
  gate_skips mag_nii thr = false ->
  (forall out fs',
     resample_files fround continuous_interp abspath fs mag_file pha_file
       mask_file thr = Ok (out, fs') ->
     snd out = Some "placeholder"%string) /\
  (forall m p k,
     resample_to_axial fround continuous_interp mag_nii pha_nii None = Ok (m, p, k) ->
     resample_files fround continuous_interp abspath fs mag_file pha_file
       mask_file thr
     = Ok ((resampled_name abspath mag_file, resampled_name abspath pha_file,
            Some "placeholder"%string),
           nib_save p (resampled_name abspath pha_file)
             (nib_save m (resampled_name abspath mag_file) fs))).
Proof.
  intros Hm Hp Hk Hg.
  assert (Hres : resample_files fround continuous_interp abspath fs mag_file
                   pha_file mask_file thr
                 = resample_and_save fround continuous_interp abspath fs mag_file
                     pha_file mask_file mag_nii pha_nii None).
  { unfold resample_files, load_mask. rewrite Hm, Hp, Hk. cbn [bind].
    now rewrite Hg. }
  rewrite Hres. unfold resample_and_save.
  destruct (resample_to_axial fround continuous_interp mag_nii pha_nii None)
    as [[[m p] k]|e] eqn:E; cbn [bind].
  - rewrite (resample_to_axial_no_mask _ _ E).
    split.
    + intros out fs' H. injection H as <- _. reflexivity.
    + intros m0 p0 k0 H. injection H as <- <- _. reflexivity.
  - split; intros; discriminate.
Qed.

End Placeholder.

Lemma no_mask_gives_placeholder_witness :
  exists fs',
    resample_files Scenario.fround_id Scenario.interp0 Scenario.abspath_root
      Scenario.files "u_mag.nii" "u_phase.nii" None None
    = Ok (("/work/u_mag_resampled.nii"%string, "/work/u_phase_resampled.nii"%string,
           Some "placeholder"%string), fs').
Proof.
  destruct (resample_to_axial_returns Scenario.fround_id Scenario.interp0
              Scenario.unit_mag Scenario.unit_pha eq_refl eq_refl eq_refl)
    as (m & p & Hr).
  eexists.
  rewrite (proj2 (no_mask_gives_placeholder Scenario.fround_id Scenario.interp0
                    Scenario.abspath_root Scenario.files "u_mag.nii" "u_phase.nii"
                    None None (mag_nii := Scenario.unit_mag)
                    (pha_nii := Scenario.unit_pha) eq_refl eq_refl eq_refl eq_refl)
             m p None Hr).
  reflexivity.
Defined.

(** ** Evaluations of the helpers on concrete inputs *)

Example basename_nested :
  Path.basename "/data/sub-1/anat/sub-1_mag.nii.gz" = "sub-1_mag.nii.gz"%string.
Proof. reflexivity. Qed.

Example resampled_name_double_extension :
  resampled_name Scenario.abspath_root "/data/sub-1/anat/sub-1_mag.nii.gz"
  = "/work/sub-1_mag_resampled.nii.gz"%string.
Proof. reflexivity. Qed.

Example resampled_name_no_extension :
  resampled_name Scenario.abspath_root "/data/mag" = "/work/mag_resampled."%string.
Proof. reflexivity. Qed.

Example sign_values :
  Np.sign (-(7 # 2)) = (-1)%Q /\ Np.sign 0 = 0%Q /\ Np.sign (3 # 5) = 1%Q.
Proof. repeat split. Qed.

Example base_affine_sagittal :
  Np.array_equal (base_affine_of Scenario.sagittal_mag)
    [ [0; 0; 0; 0]; [0; 0; 0; 0]; [0; 0; 0; 0]; [0; 0; 0; 1] ]%Q = true.
Proof. vm_compute. reflexivity. Qed.

Example rint_ties_to_even :
  rint (5 / 2) = 2%Z /\ rint (7 / 2) = 4%Z.
Proof.
  assert (I2 : Int_part (5 / 2) = 2%Z) by (symmetry; apply Int_part_spec; lra).
  assert (I3 : Int_part (7 / 2) = 3%Z) by (symmetry; apply Int_part_spec; lra).
  unfold rint. rewrite I2, I3. split.
  - destruct (Rlt_dec (5 / 2 - 2) (1 / 2)) as [H|_]; [lra|].
    destruct (Rlt_dec (1 / 2) (5 / 2 - 2)) as [H|_]; [lra|]. reflexivity.
  - destruct (Rlt_dec (7 / 2 - 3) (1 / 2)) as [H|_]; [lra|].
    destruct (Rlt_dec (1 / 2) (7 / 2 - 3)) as [H|_]; [lra|]. reflexivity.
Qed.

Example arctan2_negative_real_axis : arctan2 0 (-1) = PI.
Proof.
  unfold arctan2.
  destruct (Rlt_dec 0 (-1)) as [H|_]; [lra|].
  destruct (Rlt_dec (-1) 0) as [_|H]; [|lra].
  destruct (Rlt_dec 0 0) as [H|_]; [lra|].
  replace (0 / -1)%R with 0%R by field. rewrite atan_0. lra.
Qed.

(** * Further properties of the code *)

(** ** scripts/logger.py *)

Section StringStreamFacts.

Import Logger.

Lemma write_items (s : StringStream) (r : string) :
  items (fst (write s r))
  = if truthy_int (max_records s) && exceeds (items s ++ [r]) (max_records s)
    then tl (items s ++ [r]) else items s ++ [r].
Proof. reflexivity. Qed.

Lemma write_keeps_settings (s : StringStream) (r : string) :
  max_records (fst (write s r)) = max_records s /\
  print_new_records (fst (write s r)) = print_new_records s.
Proof. split; reflexivity. Qed.

Lemma tl_as_skipn (l : list string) : tl l = skipn 1 l.
Proof. destruct l; reflexivity. Qed.

(** one [write] on a buffer within its bound keeps the newest [n] records *)
Lemma write_bounded_step (s : StringStream) (r : string) (n : nat) :
  (0 < n)%nat -> max_records s = Some (Z.of_nat n) ->
  (List.length (items s) <= n)%nat ->
  items (fst (write s r))
  = skipn (List.length (items s ++ [r]) - n) (items s ++ [r]).
Proof.
  intros Hn Hm Hl. rewrite write_items, Hm.
  unfold truthy_int, exceeds.
  assert (E : List.length (items s ++ [r]) = S (List.length (items s)))
    by (rewrite length_app; cbn; lia).
  rewrite E.
  destruct (Z.eqb_spec (Z.of_nat n) 0) as [H0|_]; [lia|]. cbn [negb andb].
  destruct (Z.ltb_spec (Z.of_nat n) (Z.of_nat (S (List.length (items s))))) as [H|H].
  - replace (S (List.length (items s)) - n)%nat with 1%nat by lia.
    apply tl_as_skipn.
  - replace (S (List.length (items s)) - n)%nat with 0%nat by lia.
    reflexivity.
Qed.

Lemma write_all_bounded (rs : list string) (s : StringStream) (n : nat) :
  (0 < n)%nat -> max_records s = Some (Z.of_nat n) ->
  (List.length (items s) <= n)%nat ->
  items (fst (write_all s rs))
  = skipn (List.length (items s ++ rs) - n) (items s ++ rs).
Proof.
  induction rs as [|r rest IH] in s |- *; intros Hn Hm Hl.
  - cbn. rewrite app_nil_r.
    replace (List.length (items s) - n)%nat with 0%nat by lia. reflexivity.
  - cbn [write_all].
    destruct (write s r) as [s1 p1] eqn:W.
    destruct (write_all s1 rest) as [s2 p2] eqn:WA.
    cbn [fst].
    assert (I1 : items s1
                 = skipn (List.length (items s ++ [r]) - n) (items s ++ [r])).
    { replace s1 with (fst (write s r)) by (rewrite W; reflexivity).
      now apply write_bounded_step. }
    assert (M1 : max_records s1 = Some (Z.of_nat n)).
    { replace s1 with (fst (write s r)) by (rewrite W; reflexivity).
      rewrite (proj1 (write_keeps_settings s r)). exact Hm. }
    assert (L : List.length (items s ++ [r]) = S (List.length (items s)))
      by (rewrite length_app; cbn; lia).
    assert (L1 : (List.length (items s1) <= n)%nat).
    { rewrite I1, length_skipn. lia. }
    specialize (IH s1 Hn M1 L1). rewrite WA in IH. cbn [fst] in IH.
    rewrite IH, I1.
    set (k := (List.length (items s ++ [r]) - n)%nat).
    assert (Hk : (k <= List.length (items s ++ [r]))%nat) by (unfold k; lia).
    replace (skipn k (items s ++ [r]) ++ rest)
      with (skipn k ((items s ++ [r]) ++ rest)).
    2:{ rewrite skipn_app.
        replace (k - List.length (items s ++ [r]))%nat with 0%nat by lia.
        reflexivity. }
    rewrite skipn_skipn, length_skipn.
    rewrite <- app_assoc. cbn [app].
    f_equal.
    assert (L2 : List.length (items s ++ r :: rest)
                 = (S (List.length (items s)) + List.length rest)%nat)
      by (rewrite length_app; cbn; lia).
    rewrite L2. unfold k. rewrite L. lia.
Qed.

(** X1: a stream created with a positive [max_records] = n holds, after any
    sequence of writes, exactly the newest n records written (all of them
    while fewer than n were written), so its length never exceeds n. *)
Theorem stream_keeps_newest_records (n : nat) (p : bool) (rs : list string) :
  (0 < n)%nat ->
  let s := fst (write_all (new_stream (Some (Z.of_nat n)) p) rs) in
  items s = skipn (List.length rs - n) rs /\ (len s <= n)%nat.
Proof.
  intros Hn s.
  assert (E : items s = skipn (List.length rs - n) rs).
  { unfold s.
    rewrite (@write_all_bounded rs (new_stream (Some (Z.of_nat n)) p) n Hn eq_refl)
      by (cbn; lia).
    reflexivity. }
  split; [exact E|]. unfold len. rewrite E, length_skipn. lia.
Qed.

Lemma write_all_unbounded (rs : list string) (s : StringStream) :
  truthy_int (max_records s) = false ->
  items (fst (write_all s rs)) = items s ++ rs /\
  snd (write_all s rs) = if print_new_records s then rs else [].
Proof.
  induction rs as [|r rest IH] in s |- *; intros Hm.
  - cbn. rewrite app_nil_r. split; [reflexivity | now destruct (print_new_records s)].
  - cbn [write_all].
    destruct (write s r) as [s1 p1] eqn:W.
    destruct (write_all s1 rest) as [s2 p2] eqn:WA.
    assert (I1 : items s1 = items s ++ [r]).
    { replace s1 with (fst (write s r)) by (rewrite W; reflexivity).
      rewrite write_items, Hm. reflexivity. }
    assert (M1 : max_records s1 = max_records s).
    { replace s1 with (fst (write s r)) by (rewrite W; reflexivity). reflexivity. }
    assert (P1 : print_new_records s1 = print_new_records s).
    { replace s1 with (fst (write s r)) by (rewrite W; reflexivity). reflexivity. }
    assert (Q1 : p1 = if print_new_records s then [r] else []).
    { replace p1 with (snd (write s r)) by (rewrite W; reflexivity). reflexivity. }
    assert (Hm1 : truthy_int (max_records s1) = false) by (rewrite M1; exact Hm).
    destruct (IH s1 Hm1) as [IHi IHp]. rewrite WA in IHi, IHp. cbn [fst snd] in *.
    rewrite IHi, IHp, I1, P1, Q1, <- app_assoc.
    split; [reflexivity | now destruct (print_new_records s)].
Qed.

(** X2: a stream without [max_records] (as [make_logger] creates them), or
    with [max_records] = 0, keeps every record in the order written; the
    records are echoed to standard output, once each and in order, exactly
    when [print_new_records] is set. *)
Theorem stream_without_bound_keeps_all (m : option Z) (p : bool) (rs : list string) :
  m = None \/ m = Some 0%Z ->
  items (fst (write_all (new_stream m p) rs)) = rs /\
  snd (write_all (new_stream m p) rs) = if p then rs else [].
Proof.
  intros Hm.
  assert (T : truthy_int (max_records (new_stream m p)) = false)
    by (destruct Hm as [-> | ->]; reflexivity).
  destruct (write_all_unbounded rs (new_stream m p) T) as [Hi Hp].
  split; [exact Hi | exact Hp].
Qed.

Lemma write_all_negative (rs : list string) (s : StringStream) (n : Z) :
  (n < 0)%Z -> max_records s = Some n -> items s = [] ->
  items (fst (write_all s rs)) = [].
Proof.
  induction rs as [|r rest IH] in s |- *; intros Hn Hm Hi.
  - exact Hi.
  - cbn [write_all].
    destruct (write s r) as [s1 p1] eqn:W.
    destruct (write_all s1 rest) as [s2 p2] eqn:WA.
    assert (I1 : items s1 = []).
    { replace s1 with (fst (write s r)) by (rewrite W; reflexivity).
      rewrite write_items, Hm, Hi. unfold truthy_int, exceeds. cbn [app List.length].
      destruct (Z.eqb_spec n 0) as [H0|_]; [lia|].
      destruct (Z.ltb_spec n (Z.of_nat 1)) as [_|H]; [reflexivity | lia]. }
    assert (M1 : max_records s1 = Some n).
    { replace s1 with (fst (write s r)) by (rewrite W; reflexivity). exact Hm. }
    specialize (IH s1 Hn M1 I1). now rewrite WA in IH.
Qed.

(** X3: a negative [max_records] is truthy and smaller than every length, so
    each record is popped by the very write that appended it: the stream
    stays empty. *)
Theorem stream_negative_bound_stays_empty (n : Z) (p : bool) (rs : list string) :
  (n < 0)%Z ->
  items (fst (write_all (new_stream (Some n) p) rs)) = [].
Proof.
  intros Hn. exact (write_all_negative rs (new_stream (Some n) p) Hn eq_refl eq_refl).
Qed.

End StringStreamFacts.

Lemma stream_keeps_newest_records_witness :
  Logger.items (fst (Logger.write_all (Logger.new_stream (Some 2%Z) true)
                       ["a"; "b"; "c"]%string))
  = ["b"; "c"]%string.
Proof.
  exact (proj1 (stream_keeps_newest_records true ["a"; "b"; "c"]%string
                  (n := 2) (Nat.lt_0_succ 1))).
Defined.

Lemma stream_without_bound_keeps_all_witness :
  Logger.items (fst (Logger.write_all (Logger.new_stream None false)
                       ["x"; "y"]%string)) = ["x"; "y"]%string /\
  snd (Logger.write_all (Logger.new_stream None false) ["x"; "y"]%string) = [].
Proof.
  exact (stream_without_bound_keeps_all false ["x"; "y"]%string (or_introl eq_refl)).
Defined.

Lemma stream_negative_bound_stays_empty_witness :
  Logger.items (fst (Logger.write_all (Logger.new_stream (Some (-1)%Z) true)
                       ["a"; "b"]%string)) = [].
Proof.
  exact (stream_negative_bound_stays_empty true ["a"; "b"]%string
           (n := (-1)%Z) eq_refl).
Defined.

(** ** run_2_qsm.py: [process_args] *)

Section ProcessArgsFacts.

Import Qsm.

Lemma default_masking_truthy (a : Args) :
  truthy_string (masking (process_args 0 a)) = true.
Proof.
  unfold process_args. cbn [masking].
  destruct (truthy_string (masking a)) eqn:E; cbn [negb]; [exact E|].
  destruct (qsm_algorithm a); reflexivity.
Qed.

(** X4: whatever the command line held, the options that [process_args]
    returns agree with each other, and a masking method is chosen. *)
Theorem process_args_consistent (n_cpus : Z) (a : Args) :
  options_consistent (process_args n_cpus a) /\
  truthy_string (masking (process_args n_cpus a)) = true.
Proof.
  split; [|exact (default_masking_truthy a)].
  unfold options_consistent, process_args.
  cbn [single_pass two_pass add_bet masking inhomogeneity_correction].
  set (m := if negb (truthy_string (masking a)) then _ else _).
  destruct (contains "bet" m), (contains "phase-based" m),
    (add_bet a), (single_pass a), (inhomogeneity_correction a);
    cbn; repeat split; intros; try discriminate; auto.
Qed.

(** X5: [process_args] is idempotent: running it on its own result changes
    nothing. *)
Theorem process_args_idempotent (n_cpus : Z) (a : Args) :
  process_args n_cpus (process_args n_cpus a) = process_args n_cpus a.
Proof.
  pose proof (default_masking_truthy a) as T.
  unfold process_args in *.
  cbn [masking qsm_algorithm add_bet two_pass single_pass inhomogeneity_correction
       use_existing_masks num_echoes n_procs qsub_account_string tgvqsm_threads] in *.
  set (m := if negb (truthy_string (masking a)) then _ else _) in *.
  rewrite T. cbn [negb].
  assert (N : (if negb (truthy_int
                          (if negb (truthy_int (n_procs a)) then Some n_cpus
                           else n_procs a))
               then Some n_cpus
               else if negb (truthy_int (n_procs a)) then Some n_cpus else n_procs a)
              = (if negb (truthy_int (n_procs a)) then Some n_cpus else n_procs a)).
  { destruct (truthy_int (n_procs a)) eqn:E; cbn [negb].
    - now rewrite E.
    - destruct (truthy_int (Some n_cpus)); reflexivity. }
  rewrite N.
  destruct (contains "bet" m), (contains "phase-based" m),
    (add_bet a), (single_pass a), (inhomogeneity_correction a); reflexivity.
Qed.

(** X6: the number of threads given to tgv_qsm never exceeds 6; without a
    qsub account it does not exceed the number of processes either. *)
Theorem tgvqsm_threads_bound (n_cpus : Z) (a : Args) :
  (tgvqsm_threads (process_args n_cpus a) <= 6)%Z /\
  (truthy_path (qsub_account_string a) = false ->
   forall n, n_procs (process_args n_cpus a) = Some n ->
             (tgvqsm_threads (process_args n_cpus a) <= n)%Z).
Proof.
  unfold process_args. cbn [tgvqsm_threads n_procs].
  set (np := if negb (truthy_int (n_procs a)) then Some n_cpus else n_procs a).
  split.
  - destruct (truthy_path (qsub_account_string a)); cbn [negb]; [lia|].
    destruct np; lia.
  - intros Hq n Hn. rewrite Hq, Hn. cbn [negb]. lia.
Qed.

End ProcessArgsFacts.

Lemma tgvqsm_threads_bound_witness :
  (Qsm.tgvqsm_threads (Qsm.process_args 8 RunScenario.cli_args) <= 8)%Z.
Proof.
  apply (proj2 (tgvqsm_threads_bound 8 RunScenario.cli_args)); reflexivity.
Defined.

(** ** run_2_qsm.py: the file checks of [init_run_workflow] *)

Section CheckRunFacts.

Import Qsm.

Variable run_args : Args.
Variables phase_glob magnitude_glob params_glob mask_glob : list string.
Variable args' : Args.
Variable files : RunFiles.
Variable warnings : list RunWarning.
Hypothesis Hrun :
  check_run run_args phase_glob magnitude_glob params_glob mask_glob
  = (Some (args', files), warnings).

Lemma is_nil_true {A : Type} (l : list A) : is_nil l = true <-> l = [].
Proof. destruct l; split; intros H; try reflexivity; discriminate. Qed.

Ltac invert_run :=
  revert Hrun; unfold check_run;
  destruct (is_nil (slice_to phase_glob (num_echoes run_args))) eqn:Hnil;
    [discriminate|];
  destruct (Nat.eqb (List.length (slice_to phase_glob (num_echoes run_args)))
              (List.length (slice_to params_glob (num_echoes run_args)))) eqn:Hlen;
    cbn [negb]; [|discriminate];
  intros Hrun'; injection Hrun' as <- <- <-.

(** X7: when a run is not skipped, it has at least one phase file, as many
    parameter files as phase files, and the mask list handed to the
    workflow is either empty or as long as the phase list. *)
Theorem run_file_lists_aligned :
  phase_files files <> [] /\
  List.length (params_files files) = List.length (phase_files files) /\
  (getfiles_mask_files files = []
   \/ List.length (getfiles_mask_files files) = List.length (phase_files files)).
Proof.
  invert_run. cbn [phase_files params_files mask_files getfiles_mask_files].
  apply Nat.eqb_eq in Hlen.
  split; [intros E; apply is_nil_true in E; congruence|].
  split; [now symmetry|].
  unfold getfiles_mask_files. cbn [mask_files phase_files].
  destruct (use_existing_masks run_args); cbn [andb]; [|now left].
  destruct (slice_to mask_glob (num_echoes run_args)) as [|m1 [|m2 rest]].
  - now left.
  - cbn. right. apply length_map.
  - cbn [List.length Nat.ltb Nat.leb andb].
    destruct (Nat.eqb _ _) eqn:E; cbn [negb]; [|now left].
    right. apply Nat.eqb_eq in E. exact E.
Qed.

(** X8: a run without magnitude files never asks for inhomogeneity
    correction, an added BET mask, magnitude-based masking or a BET masking
    method; so the inhomogeneity node, which is wired to the output of the
    resampling node, is only requested when that node exists. *)
Theorem no_magnitude_no_magnitude_steps :
  (magnitude_files files = [] ->
   inhomogeneity_correction args' = false /\
   add_bet args' = false /\
   contains "bet" (masking args') = false /\
   masking args' <> "magnitude-based"%string) /\
  (has_inhomogeneity_node args' = true -> has_resample_node files = true).
Proof.
  assert (Main : magnitude_files files = [] ->
     inhomogeneity_correction args' = false /\
     add_bet args' = false /\
     contains "bet" (masking args') = false /\
     masking args' <> "magnitude-based"%string).
  { invert_run.
    cbn [magnitude_files inhomogeneity_correction add_bet masking].
    intros Hm. rewrite Hm. cbn [is_nil andb].
    destruct (String.eqb_spec (masking run_args) "magnitude-based") as [E|E];
      cbn [orb].
    - repeat split; try (destruct (_ && negb _); reflexivity).
      discriminate.
    - destruct (contains "bet" (masking run_args)) eqn:Eb; cbn [orb].
      + repeat split; try (destruct (_ && negb _); reflexivity).
        discriminate.
      + destruct (add_bet run_args); cbn [orb].
        * repeat split; try (destruct (_ && negb _); reflexivity).
          discriminate.
        * destruct (inhomogeneity_correction run_args).
          -- repeat split; try (destruct (_ && negb _); reflexivity).
             discriminate.
          -- repeat split; try (destruct (_ && negb _); reflexivity);
               assumption. }
  split; [exact Main|].
  unfold has_inhomogeneity_node, has_resample_node. intros Hi.
  destruct (magnitude_files files) eqn:Em; [|reflexivity].
  destruct (Main eq_refl) as [H _]. congruence.
Qed.

(** X9: mask files reach the workflow only when [--use_existing_masks] was
    given, and a run that has them is single-pass, without an added BET mask
    and without inhomogeneity correction. *)
Theorem predefined_masks_force_single_pass :
  mask_files files <> [] ->
  use_existing_masks run_args = true /\
  single_pass args' = true /\ two_pass args' = false /\
  add_bet args' = false /\ inhomogeneity_correction args' = false.
Proof.
  invert_run.
  cbn [mask_files single_pass two_pass add_bet inhomogeneity_correction].
  destruct (use_existing_masks run_args); cbn [andb].
  - set (ml := if _ && negb _ then [] else _).
    intros Hne. destruct ml; [congruence|]. cbn. repeat split.
  - intros Hne. exfalso. apply Hne. reflexivity.
Qed.

(** X10: the file checks keep the agreement between the options that
    [process_args] established. *)
Theorem check_run_keeps_consistency :
  options_consistent run_args -> options_consistent args'.
Proof.
  invert_run. unfold options_consistent.
  cbn [single_pass two_pass add_bet inhomogeneity_correction masking].
  intros (H1 & H2 & H3 & H4).
  set (revert := is_nil _ && _).
  set (predefined := use_existing_masks run_args && negb _).
  destruct predefined, revert; cbn; repeat split; intros; try discriminate; auto.
Qed.

End CheckRunFacts.

Lemma run_file_lists_aligned_witness :
  List.length (Qsm.getfiles_mask_files RunScenario.files_with_mask) = 2%nat.
Proof.
  destruct (@run_file_lists_aligned RunScenario.args RunScenario.phases
              RunScenario.magnitudes RunScenario.params RunScenario.one_mask
              RunScenario.args_with_mask RunScenario.files_with_mask []
              eq_refl) as (_ & _ & [H|H]); [discriminate H | exact H].
Defined.

Lemma no_magnitude_no_magnitude_steps_witness :
  Qsm.inhomogeneity_correction RunScenario.args = true /\
  Qsm.inhomogeneity_correction RunScenario.args_without_magnitude = false.
Proof.
  split; [reflexivity|].
  exact (proj1 (proj1 (@no_magnitude_no_magnitude_steps RunScenario.args
                         RunScenario.phases [] RunScenario.params []
                         RunScenario.args_without_magnitude
                         RunScenario.files_without_magnitude
                         [Qsm.NoMagnitudeFiles; Qsm.NoMasksFound] eq_refl)
                  eq_refl)).
Defined.

Lemma predefined_masks_force_single_pass_witness :
  Qsm.two_pass RunScenario.args = true /\
  Qsm.two_pass RunScenario.args_with_mask = false.
Proof.
  split; [reflexivity|].
  refine (proj1 (proj2 (proj2 (@predefined_masks_force_single_pass
                                 RunScenario.args RunScenario.phases
                                 RunScenario.magnitudes RunScenario.params
                                 RunScenario.one_mask RunScenario.args_with_mask
                                 RunScenario.files_with_mask [] eq_refl _)))).
  discriminate.
Defined.

Lemma scenario_args_consistent : options_consistent RunScenario.args.
Proof.
  unfold options_consistent. repeat split; intros; try reflexivity.
  left. reflexivity.
Qed.

Lemma check_run_keeps_consistency_witness :
  options_consistent RunScenario.args_with_mask.
Proof.
  apply (@check_run_keeps_consistency RunScenario.args RunScenario.phases
           RunScenario.magnitudes RunScenario.params RunScenario.one_mask
           RunScenario.args_with_mask RunScenario.files_with_mask [] eq_refl).
  exact scenario_args_consistent.
Defined.

(** ** interfaces/nipype_interface_axialsampling.py: files read and written *)

Lemma nib_load_saved (img : Nifti1Image) (path : string) (fs : store) :
  nib_load (nib_save img path fs) path = Ok img.
Proof. unfold nib_save. cbn. now rewrite String.eqb_refl. Qed.

Lemma nib_load_other (img : Nifti1Image) (q path : string) (fs : store) :
  path <> q -> nib_load (nib_save img q fs) path = nib_load fs path.
Proof.
  intros H. unfold nib_save. cbn.
  destruct (String.eqb_spec q path) as [E|_]; [congruence | reflexivity].
Qed.

Section FileFacts.

Variable fround : dtype -> R -> R.
Variable continuous_interp : ndarray -> Affine.point -> R.
Variable abspath : string -> string.

(** what a successful [resample_and_save] has done *)
Lemma resample_and_save_inv (fs fs' : store) (mag_file pha_file m p : string)
    (mask_file k : option string) (mag_nii pha_nii : Nifti1Image)
    (mask_nii : option Nifti1Image) :
  resample_and_save fround continuous_interp abspath fs mag_file pha_file
    mask_file mag_nii pha_nii mask_nii = Ok ((m, p, k), fs') ->
  exists mr pr kr,
    resample_to_axial fround continuous_interp mag_nii pha_nii mask_nii
      = Ok (mr, pr, kr) /\
    m = resampled_name abspath mag_file /\ p = resampled_name abspath pha_file /\
    ((exists km f, kr = Some km /\ mask_file = Some f /\ k = Some (resampled_name abspath f) /\
        fs' = nib_save km (resampled_name abspath f) (nib_save pr p (nib_save mr m fs)))
     \/ (k = Some "placeholder"%string /\
         fs' = nib_save pr p (nib_save mr m fs))).
Proof.
  unfold resample_and_save.
  destruct (resample_to_axial _ _ _ _ _) as [[[mr pr] kr]|e]; cbn [bind];
    [|discriminate].
  intros H. exists mr, pr, kr. split; [reflexivity|].
  destruct kr as [km|], mask_file as [f|]; injection H as <- <- <- <-;
    (split; [reflexivity|]); (split; [reflexivity|]).
  - left. exists km, f. repeat split.
  - right. split; reflexivity.
  - right. split; reflexivity.
  - right. split; reflexivity.
Qed.

(** the two ways in which [resample_files] returns *)
Lemma resample_files_cases (fs fs' : store) (mag_file pha_file : string)
    (mask_file : option string) (thr : option Q)
    (out : string * string * option string) :
  resample_files fround continuous_interp abspath fs mag_file pha_file
    mask_file thr = Ok (out, fs') ->
  (out = (mag_file, pha_file, mask_file) /\ fs' = fs)
  \/ exists mag_nii pha_nii mask_nii,
       nib_load fs mag_file = Ok mag_nii /\
       nib_load fs pha_file = Ok pha_nii /\
       gate_skips mag_nii thr = false /\
       resample_and_save fround continuous_interp abspath fs mag_file pha_file
         mask_file mag_nii pha_nii mask_nii = Ok (out, fs').
Proof.
  unfold resample_files.
  destruct (nib_load fs mag_file) as [mag_nii|]; cbn [bind]; [|discriminate].
  destruct (nib_load fs pha_file) as [pha_nii|]; cbn [bind]; [|discriminate].
  destruct (load_mask fs mask_file) as [mask_nii|]; cbn [bind]; [|discriminate].
  destruct (gate_skips mag_nii thr) eqn:G.
  - intros H. injection H as <- <-. now left.
  - intros H. right. exists mag_nii, pha_nii, mask_nii. repeat split; assumption.
Qed.

(** X11: [resample_files] never removes or overwrites a file other than the
    ones whose names it returns: every other path loads exactly as before
    the call. *)
Theorem resample_files_touches_only_outputs (fs fs' : store)
    (mag_file pha_file m p : string) (mask_file k : option string)
    (thr : option Q) :
  resample_files fround continuous_interp abspath fs mag_file pha_file
    mask_file thr = Ok ((m, p, k), fs') ->
  forall path, path <> m -> path <> p -> k <> Some path ->
    nib_load fs' path = nib_load fs path.
Proof.
  intros H path Hm Hp Hk.
  destruct (resample_files_cases _ _ _ _ _ H) as [[_ ->]|(mg & ph & mk & _ & _ & _ & Hs)];
    [reflexivity|].
  destruct (resample_and_save_inv _ _ _ _ _ _ _ Hs)
    as (mr & pr & kr & _ & Em & Ep & [(km & f & _ & _ & Ek & ->)|[_ ->]]).
  - rewrite nib_load_other by (intros E; apply Hk; rewrite Ek; now f_equal).
    rewrite nib_load_other by exact Hp. now rewrite nib_load_other by exact Hm.
  - rewrite nib_load_other by exact Hp. now rewrite nib_load_other by exact Hm.
Qed.

(** X12: a file that cannot be loaded fails the call with the loader's
    error: the magnitude first, then the phase, then the mask; a mask file
    that is named but missing fails the call whatever the threshold, hence
    also when the obliquity gate would have skipped the resampling. *)
Theorem resample_files_missing_file (fs : store) (mag_file pha_file : string)
    (mask_file : option string) (thr : option Q) (e : Exn) :
  (nib_load fs mag_file = Raise e ->
   resample_files fround continuous_interp abspath fs mag_file pha_file
     mask_file thr = Raise e) /\
  (forall mag_nii, nib_load fs mag_file = Ok mag_nii ->
   nib_load fs pha_file = Raise e ->
   resample_files fround continuous_interp abspath fs mag_file pha_file
     mask_file thr = Raise e) /\
  (forall mag_nii pha_nii f,
   nib_load fs mag_file = Ok mag_nii -> nib_load fs pha_file = Ok pha_nii ->
   mask_file = Some f -> f <> EmptyString -> nib_load fs f = Raise e ->
   resample_files fround continuous_interp abspath fs mag_file pha_file
     mask_file thr = Raise e).
Proof.
  unfold resample_files. split; [|split].
  - intros ->. reflexivity.
  - intros mag_nii -> ->. reflexivity.
  - intros mag_nii pha_nii f -> -> -> Hf Hl. cbn [bind].
    unfold load_mask, truthy_path.
    destruct (String.eqb_spec f EmptyString) as [E|_]; [congruence|].
    cbn [negb]. rewrite Hl. reflexivity.
Qed.

(** X13: after a resampling without mask, the returned phase name loads the
    resampled phase; the returned magnitude name loads the resampled
    magnitude when the two names differ, and the resampled phase when they
    coincide, the phase being saved last. *)
Theorem resample_files_saved_volumes (fs fs' : store)
    (mag_file pha_file m p : string) (k : option string)
    (mag_nii pha_nii mr pr : Nifti1Image) (kr : option Nifti1Image) :
  resample_to_axial fround continuous_interp mag_nii pha_nii None = Ok (mr, pr, kr) ->
  resample_and_save fround continuous_interp abspath fs mag_file pha_file
    None mag_nii pha_nii None = Ok ((m, p, k), fs') ->
  nib_load fs' p = Ok pr /\
  (m <> p -> nib_load fs' m = Ok mr) /\
  (m = p -> nib_load fs' m = Ok pr).
Proof.
  intros Hr Hs.
  destruct (resample_and_save_inv _ _ _ _ _ _ _ Hs)
    as (mr' & pr' & kr' & Hr' & _ & _ & [(km & f & _ & Hf & _)|[_ ->]]);
    [discriminate|].
  rewrite Hr in Hr'. injection Hr' as <- <- <-.
  split; [apply nib_load_saved|]. split.
  - intros Hne. rewrite nib_load_other by exact Hne. apply nib_load_saved.
  - intros ->. apply nib_load_saved.
Qed.

End FileFacts.

Lemma resample_and_save_no_mask (fround : dtype -> R -> R)
    (continuous_interp : ndarray -> Affine.point -> R) (abspath : string -> string)
    (fs : store) (mag_file pha_file : string) (mag_nii pha_nii mr pr : Nifti1Image)
    (kr : option Nifti1Image) :
  resample_to_axial fround continuous_interp mag_nii pha_nii None = Ok (mr, pr, kr) ->
  resample_and_save fround continuous_interp abspath fs mag_file pha_file None
    mag_nii pha_nii None
  = Ok ((resampled_name abspath mag_file, resampled_name abspath pha_file,
         Some "placeholder"%string),
        nib_save pr (resampled_name abspath pha_file)
          (nib_save mr (resampled_name abspath mag_file) fs)).
Proof.
  intros H. unfold resample_and_save. rewrite H. cbn [bind].
  destruct kr; reflexivity.
Qed.

Lemma resample_files_touches_only_outputs_witness :
  exists fs',
    resample_files Scenario.fround_id Scenario.interp0 Scenario.abspath_root
      Scenario.files "u_mag.nii" "u_phase.nii" None None
    = Ok (("/work/u_mag_resampled.nii"%string, "/work/u_phase_resampled.nii"%string,
           Some "placeholder"%string), fs') /\
    nib_load fs' "u_mag.nii" = Ok Scenario.unit_mag.
Proof.
  destruct (resample_to_axial_returns Scenario.fround_id Scenario.interp0
              Scenario.unit_mag Scenario.unit_pha eq_refl eq_refl eq_refl)
    as (mr & pr & Hr).
  pose proof (resample_and_save_no_mask Scenario.fround_id Scenario.interp0
                Scenario.abspath_root Scenario.files "u_mag.nii" "u_phase.nii"
                Scenario.unit_mag Scenario.unit_pha Hr) as Hs.
  eexists. split; [exact Hs|].
  rewrite (resample_files_touches_only_outputs Scenario.fround_id Scenario.interp0
             Scenario.abspath_root Scenario.files "u_mag.nii" "u_phase.nii"
             None None Hs (path := "u_mag.nii")); [reflexivity | | | ];
    discriminate.
Defined.

Lemma resample_files_missing_file_witness :
  resample_files Scenario.fround_id Scenario.interp0 Scenario.abspath_root
    Scenario.files "absent_mag.nii" "u_phase.nii" None (Some 10)
  = Raise FileNotFoundError.
Proof.
  apply (proj1 (resample_files_missing_file Scenario.fround_id Scenario.interp0
                  Scenario.abspath_root Scenario.files "absent_mag.nii"
                  "u_phase.nii" None (Some 10) FileNotFoundError)).
  reflexivity.
Defined.

Lemma resample_files_saved_volumes_witness :
  exists pr fs',
    resample_and_save Scenario.fround_id Scenario.interp0 Scenario.abspath_root
      FileScenario.same_name_files "/mag/echo1.nii" "/phase/echo1.nii" None
      Scenario.unit_mag Scenario.unit_pha None
    = Ok (("/work/echo1_resampled.nii"%string, "/work/echo1_resampled.nii"%string,
           Some "placeholder"%string), fs') /\
    (exists mr,
       resample_to_axial Scenario.fround_id Scenario.interp0
         Scenario.unit_mag Scenario.unit_pha None = Ok (mr, pr, None)) /\
    nib_load fs' "/work/echo1_resampled.nii" = Ok pr.
Proof.
  destruct (resample_to_axial_returns Scenario.fround_id Scenario.interp0
              Scenario.unit_mag Scenario.unit_pha eq_refl eq_refl eq_refl)
    as (mr & pr & Hr).
  pose proof (resample_and_save_no_mask Scenario.fround_id Scenario.interp0
                Scenario.abspath_root FileScenario.same_name_files
                "/mag/echo1.nii" "/phase/echo1.nii"
                Scenario.unit_mag Scenario.unit_pha Hr) as Hs.
  exists pr. eexists. split; [exact Hs|]. split; [exists mr; exact Hr|].
  exact (proj2 (proj2 (@resample_files_saved_volumes Scenario.fround_id
                         Scenario.interp0 Scenario.abspath_root
                         FileScenario.same_name_files _ "/mag/echo1.nii"
                         "/phase/echo1.nii" _ _ _ Scenario.unit_mag
                         Scenario.unit_pha mr pr None Hr Hs)) eq_refl).
Defined.

(** ** [resample_to_axial]: the grid of the outputs, shape errors *)

Lemma map2_shape (f : R -> R -> R) (a b c : ndarray) :
  Arr.map2 f a b = Ok c ->
  Arr.broadcast_shapes (shape a) (shape b) = Some (shape c).
Proof.
  unfold Arr.map2. destruct (Arr.broadcast_shapes _ _); [|discriminate].
  intros H. now injection H as <-.
Qed.

Lemma map2_not_broadcastable (f : R -> R -> R) (a b : ndarray) :
  Arr.broadcast_shapes (shape a) (shape b) = None ->
  Arr.map2 f a b = Raise ValueError.
Proof. intros H. unfold Arr.map2. now rewrite H. Qed.

Lemma decompose_inv (mag_nii pha_nii re im : Nifti1Image) :
  decompose mag_nii pha_nii = Ok (re, im) ->
  shape (dataobj re) = shape (dataobj im) /\
  affine re = affine pha_nii /\ affine im = affine pha_nii.
Proof.
  unfold decompose.
  destruct (Arr.map2 Rmult (dataobj mag_nii) (Arr.map cos (dataobj pha_nii)))
    as [r|] eqn:E1; cbn [bind]; [|discriminate].
  destruct (Arr.map2 Rmult (dataobj mag_nii) (Arr.map sin (dataobj pha_nii)))
    as [i|] eqn:E2; cbn [bind]; [|discriminate].
  intros H. injection H as <- <-. cbn.
  apply map2_shape in E1, E2. cbn [Arr.map shape] in E1, E2.
  split; [congruence | split; reflexivity].
Qed.

Lemma recompose_inv (fround : dtype -> R -> R)
    (mag_nii pha_nii re im m p : Nifti1Image) :
  shape (dataobj re) = shape (dataobj im) ->
  recompose fround mag_nii pha_nii re im = Ok (m, p) ->
  affine m = affine re /\ affine p = affine re /\
  shape (dataobj m) = shape (dataobj re) /\
  shape (dataobj p) = shape (dataobj re) /\
  data_shape (header m) = shape (dataobj m) /\
  data_shape (header p) = shape (dataobj p) /\
  data_dtype (header m) = data_dtype (header mag_nii) /\
  data_dtype (header p) = data_dtype (header pha_nii).
Proof.
  intros E. unfold recompose.
  rewrite map2_same_shape by exact E.
  rewrite map2_same_shape by (symmetry; exact E). cbn [bind].
  intros H. injection H as <- <-. cbn. rewrite E. repeat split.
Qed.

Lemma resample_img_target_affine
    (continuous_interp : ndarray -> Affine.point -> R) (img : Nifti1Image)
    (t : Np.matrix) (ts : option shape3) (k : interpolation) (r : Nifti1Image) :
  resample_img continuous_interp img t ts k = Ok r ->
  affine r = t /\ (forall s, ts = Some s -> shape (dataobj r) = s).
Proof.
  unfold resample_img.
  destruct (Affine.inv t); [|discriminate].
  destruct (Affine.upper_bounds _ _) as [[xmax ymax] zmax].
  destruct (negb _ || negb _ || negb _); [discriminate|].
  destruct (Affine.inv (affine img)); [|discriminate].
  intros H. injection H as <-. split; [reflexivity|].
  intros s ->. reflexivity.
Qed.

Section OutputGrid.

Variable fround : dtype -> R -> R.
Variable continuous_interp : ndarray -> Affine.point -> R.

(** X14: whenever [resample_to_axial] returns, magnitude, phase and mask
    (if any) all carry the target affine built from the magnitude volume,
    magnitude and phase have the same shape, recorded in their headers, and
    a mask comes back exactly when one went in. *)
Theorem resample_to_axial_outputs_share_grid (mag_nii pha_nii m p : Nifti1Image)
    (mask_nii k : option Nifti1Image) :
  resample_to_axial fround continuous_interp mag_nii pha_nii mask_nii
    = Ok (m, p, k) ->
  affine m = base_affine_of mag_nii /\
  affine p = base_affine_of mag_nii /\
  shape (dataobj m) = shape (dataobj p) /\
  data_shape (header m) = shape (dataobj m) /\
  data_shape (header p) = shape (dataobj p) /\
  (forall mk, k = Some mk -> affine mk = base_affine_of mag_nii) /\
  (k = None <-> mask_nii = None).
Proof.
  unfold resample_to_axial.
  generalize (base_affine_of mag_nii). intros T.
  destruct (decompose mag_nii pha_nii) as [[re im]|] eqn:Ed; cbn [bind];
    [|discriminate].
  destruct (decompose_inv _ _ Ed) as (Es & Ea1 & Ea2).
  destruct (resample_img continuous_interp re T None continuous) as [re'|] eqn:E1;
    cbn [bind]; [|discriminate].
  destruct (resample_img continuous_interp im T None continuous) as [im'|] eqn:E2;
    cbn [bind]; [|discriminate].
  destruct (resample_img_shape continuous_interp re im T
              None continuous continuous Es (eq_trans Ea1 (eq_sym Ea2)) E1 E2)
    as (Hs & Hre & Him).
  destruct mask_nii as [mk|].
  - destruct (resample_img continuous_interp mk T None nearest) as [mk'|] eqn:E3;
      cbn [bind]; [|discriminate].
    destruct (recompose fround mag_nii pha_nii re' im') as [[m0 p0]|] eqn:Er;
      cbn [bind]; [|discriminate].
    intros H. injection H as <- <- <-.
    destruct (recompose_inv _ _ _ _ _ Hs Er)
      as (A1 & A2 & S1 & S2 & D1 & D2 & _ & _).
    split; [now rewrite A1|]. split; [now rewrite A2|].
    split; [now rewrite S1, S2|]. split; [exact D1|]. split; [exact D2|].
    split.
    + intros mk0 H. injection H as <-.
      exact (proj1 (resample_img_target_affine continuous_interp mk T None nearest E3)).
    + split; discriminate.
  - cbn [bind].
    destruct (recompose fround mag_nii pha_nii re' im') as [[m0 p0]|] eqn:Er;
      cbn [bind]; [|discriminate].
    intros H. injection H as <- <- <-.
    destruct (recompose_inv _ _ _ _ _ Hs Er)
      as (A1 & A2 & S1 & S2 & D1 & D2 & _ & _).
    split; [now rewrite A1|]. split; [now rewrite A2|].
    split; [now rewrite S1, S2|]. split; [exact D1|]. split; [exact D2|].
    split; [intros mk0 H; discriminate | split; reflexivity].
Qed.

(** X15: magnitude and phase arrays whose shapes cannot be broadcast make
    [resample_to_axial] fail with numpy's ValueError at the decomposition,
    before anything is resampled, whatever the affines and the mask are. *)
Theorem shape_mismatch_raises_value_error (mag_nii pha_nii : Nifti1Image)
    (mask_nii : option Nifti1Image) :
  Arr.broadcast_shapes (shape (dataobj mag_nii)) (shape (dataobj pha_nii)) = None ->
  decompose mag_nii pha_nii = Raise ValueError /\
  resample_to_axial fround continuous_interp mag_nii pha_nii mask_nii
    = Raise ValueError.
Proof.
  intros H.
  assert (D : decompose mag_nii pha_nii = Raise ValueError).
  { unfold decompose. rewrite map2_not_broadcastable by exact H. reflexivity. }
  split; [exact D|]. unfold resample_to_axial. now rewrite D.
Qed.

End OutputGrid.

Lemma resample_to_axial_outputs_share_grid_witness :
  exists m p,
    resample_to_axial Scenario.fround_id Scenario.interp0
      Scenario.unit_mag Scenario.unit_pha None = Ok (m, p, None) /\
    affine p = base_affine_of Scenario.unit_mag /\
    shape (dataobj m) = shape (dataobj p).
Proof.
  destruct (resample_to_axial_returns Scenario.fround_id Scenario.interp0
              Scenario.unit_mag Scenario.unit_pha eq_refl eq_refl eq_refl)
    as (m & p & Hr).
  exists m, p. split; [exact Hr|].
  destruct (@resample_to_axial_outputs_share_grid Scenario.fround_id
              Scenario.interp0 Scenario.unit_mag Scenario.unit_pha m p None None Hr)
    as (_ & Hp & Hs & _).
  split; [exact Hp | exact Hs].
Defined.

Lemma shape_mismatch_raises_value_error_witness :
  resample_to_axial Scenario.fround_id Scenario.interp0
    Scenario.unit_mag FileScenario.wide_pha None = Raise ValueError.
Proof.
  exact (proj2 (@shape_mismatch_raises_value_error Scenario.fround_id
                  Scenario.interp0 Scenario.unit_mag FileScenario.wide_pha None
                  eq_refl)).
Defined.

(** ** Recomposed magnitude, target affine, gate thresholds *)

Lemma rint_nonneg (x : R) : (0 <= x)%R -> (0 <= rint x)%Z.
Proof.
  intros Hx. unfold rint. destruct (base_Int_part x) as [H1 H2].
  assert (Hf : (0 <= Int_part x)%Z).
  { apply le_IZR. destruct (Z_lt_le_dec (Int_part x) 0) as [Hn|Hn].
    - assert (IZR (Int_part x) <= -1)%R by (apply IZR_le; lia). lra.
    - apply IZR_le. exact Hn. }
  destruct (Rlt_dec _ _); [exact Hf|].
  destruct (Rlt_dec _ _); [lia|].
  destruct (Z.even _); lia.
Qed.

Lemma hypot_nonneg (x y : R) : (0 <= hypot x y)%R.
Proof. unfold hypot. apply sqrt_pos. Qed.

(** X16: every recomposed magnitude is the cast of a non-negative integer;
    stored as float64 it is that integer, so it is never negative and never
    fractional. *)
Theorem recomposed_magnitude_is_natural (fround : dtype -> R -> R)
    (mag_nii pha_nii real_rot_nii imag_rot_nii : Nifti1Image) :
  shape (dataobj real_rot_nii) = shape (dataobj imag_rot_nii) ->
  exists mag_rot_nii pha_rot_nii,
    recompose fround mag_nii pha_nii real_rot_nii imag_rot_nii
      = Ok (mag_rot_nii, pha_rot_nii) /\
    forall i, in_bounds (shape (dataobj real_rot_nii)) i = true ->
      exists n : Z,
        (0 <= n)%Z /\
        at_ (dataobj mag_rot_nii) i
          = astype fround (data_dtype (header mag_nii)) (IZR n) /\
        (data_dtype (header mag_nii) = float64 ->
         at_ (dataobj mag_rot_nii) i = IZR n).
Proof.
  intros E. unfold recompose.
  rewrite map2_same_shape by exact E.
  rewrite map2_same_shape by (symmetry; exact E).
  cbn [bind]. eexists. eexists. split; [reflexivity|].
  cbn [dataobj new_Nifti1Image shape at_ Arr.map].
  intros i Hi.
  assert (Hi' : in_bounds (shape (dataobj imag_rot_nii)) i = true)
    by (rewrite <- E; exact Hi).
  rewrite (bidx_in_bounds _ _ Hi), (bidx_in_bounds _ _ Hi').
  exists (rint (hypot (at_ (dataobj real_rot_nii) i) (at_ (dataobj imag_rot_nii) i))).
  split; [apply rint_nonneg, hypot_nonneg|].
  split; [reflexivity|].
  intros ->. reflexivity.
Qed.

Lemma recomposed_magnitude_is_natural_witness :
  exists mag_rot_nii pha_rot_nii,
    recompose Scenario.fround_id Scenario.negative_mag Scenario.zero_pha
      Scenario.negative_mag Scenario.zero_pha = Ok (mag_rot_nii, pha_rot_nii) /\
    exists n : Z, (0 <= n)%Z /\ at_ (dataobj mag_rot_nii) (0, 0, 0)%nat = IZR n.
Proof.
  destruct (@recomposed_magnitude_is_natural Scenario.fround_id
              Scenario.negative_mag Scenario.zero_pha Scenario.negative_mag
              Scenario.zero_pha eq_refl) as (m & p & Hr & Hv).
  exists m, p. split; [exact Hr|].
  destruct (Hv (0, 0, 0)%nat eq_refl) as (n & Hn & _ & Hf).
  exists n. split; [exact Hn | exact (Hf eq_refl)].
Defined.

(** X17: the target affine is invertible exactly when the three voxel
    spacings and the three diagonal entries of the source affine are all
    non-zero; the off-diagonal entries and the translation of the source
    play no role. *)
Theorem target_affine_invertible_iff (mag_nii : Nifti1Image) :
  is_affine44 (affine mag_nii) ->
  (invertible (base_affine_of mag_nii) = true <->
   forall i, (i < 3)%nat ->
     ~ Np.vget (get_zooms (header mag_nii)) i == 0 /\
     ~ Np.mget (affine mag_nii) i i == 0).
Proof.
  intros Hwf.
  pose proof (base_affine_singular_iff mag_nii Hwf) as S.
  split.
  - intros Hinv i Hi.
    assert (N : ~ Affine.det3 (base_affine_of mag_nii) == 0).
    { intros D. apply (proj2 (invertible_false_iff _)) in D. congruence. }
    split; intros Hz; apply N, S; exists i; (split; [exact Hi|]);
      [now left | now right].
  - intros Hall.
    destruct (invertible (base_affine_of mag_nii)) eqn:E; [reflexivity|].
    apply (proj1 (invertible_false_iff _)) in E. apply S in E.
    destruct E as (i & Hi & [Hz|Hz]);
      destruct (Hall i Hi) as [H1 H2]; contradiction.
Qed.

Lemma target_affine_invertible_iff_witness :
  invertible (base_affine_of Scenario.sagittal_mag) = false /\
  ~ (forall i, (i < 3)%nat ->
       ~ Np.vget (get_zooms (header Scenario.sagittal_mag)) i == 0 /\
       ~ Np.mget (affine Scenario.sagittal_mag) i i == 0).
Proof.
  split; [reflexivity|].
  intros H.
  apply (proj2 (target_affine_invertible_iff Scenario.sagittal_mag eq_refl)) in H.
  discriminate H.
Defined.

(** X18: a threshold of zero or below never skips: zero is falsy, and the
    obliquity norm is never negative; such a threshold acts like no
    threshold at all. *)
Theorem nonpositive_threshold_never_skips (mag_nii : Nifti1Image) (t : Q) :
  t <= 0 ->
  gate_skips mag_nii (Some t) = false /\
  gate_skips mag_nii (Some t) = gate_skips mag_nii None.
Proof.
  intros Ht.
  assert (G : gate_skips mag_nii (Some t) = false).
  { destruct (gate_skips mag_nii (Some t)) eqn:E; [|reflexivity].
    apply gate_skips_iff in E. destruct E as (t' & Et & Hlt).
    injection Et as <-.
    apply Qle_Rle in Ht. rewrite RMicromega.Q2R_0 in Ht.
    pose proof (norm_nonneg (map rad2deg (Obliquity.obliquity (affine mag_nii)))).
    unfold obliquity_norm in Hlt. lra. }
  split; [exact G|]. rewrite G. reflexivity.
Qed.

Lemma nonpositive_threshold_never_skips_witness :
  gate_skips Scenario.axial_mag (Some (- (5 # 1))) = false.
Proof.
  apply (proj1 (@nonpositive_threshold_never_skips Scenario.axial_mag
                  (- (5 # 1)) ltac:(discriminate))).
Defined.

(** ** Names of the resampled files *)

Lemma basename_no_sep (s : string) : Path.has_sep s = false -> Path.basename s = s.
Proof.
  destruct s as [|c r]; [reflexivity|]. cbn.
  intros H. apply orb_false_iff in H. destruct H as [Hc Hr].
  now rewrite Hc, Hr.
Qed.

Lemma has_sep_app_slash (d name : string) :
  Path.has_sep (d ++ String "/" name) = true.
Proof.
  induction d as [|c r IH]; cbn; [reflexivity|].
  rewrite IH. apply orb_true_r.
Qed.

Lemma basename_join (d name : string) :
  Path.has_sep name = false -> Path.basename (d ++ String "/" name) = name.
Proof.
  intros Hn. induction d as [|c r IH]; cbn.
  - now apply basename_no_sep.
  - rewrite has_sep_app_slash. destruct (Path.is_char c "/"); exact IH.
Qed.

Lemma extension_join (d name : string) :
  has_dot d = false ->
  Path.extension (d ++ String "/" name) = Path.extension name.
Proof.
  induction d as [|c r IH]; cbn; intros H.
  - reflexivity.
  - apply orb_false_iff in H. destruct H as [Hc Hr]. rewrite Hc. now apply IH.
Qed.

(** X19: splitting a name at its first dot loses nothing: with a dot in it,
    the name is its stem, a dot and its extension; without one, the stem is
    the whole name and the extension is empty. *)
Theorem stem_extension_round_trip (s : string) :
  (has_dot s = true ->
   (Path.stem s ++ String "." (Path.extension s))%string = s) /\
  (has_dot s = false -> Path.stem s = s /\ Path.extension s = EmptyString).
Proof.
  induction s as [|c r [IH1 IH2]]; cbn.
  - split; [discriminate | intros _; split; reflexivity].
  - unfold Path.is_char. destruct (Ascii.eqb_spec c ".") as [->|Hc]; cbn.
    + split; [reflexivity | discriminate].
    + split.
      * intros H. now rewrite (IH1 H).
      * intros H. destruct (IH2 H) as [E1 E2]. now rewrite E1, E2.
Qed.

Lemma stem_extension_round_trip_witness :
  (Path.stem "sub-1_mag.nii.gz" ++ String "." (Path.extension "sub-1_mag.nii.gz"))%string
  = "sub-1_mag.nii.gz"%string.
Proof.
  exact (proj1 (stem_extension_round_trip "sub-1_mag.nii.gz") eq_refl).
Defined.

(** X20: for a file in a directory whose path contains no dot, the output
    name is the file's own name with "_resampled" put before its first dot,
    made absolute: the directory of the input is dropped. *)
Theorem resampled_name_of_plain_directory (abspath : string -> string)
    (d name : string) :
  has_dot d = false -> Path.has_sep name = false ->
  resampled_name abspath (d ++ String "/" name)
  = abspath (Path.stem name ++ "_resampled." ++ Path.extension name)%string.
Proof.
  intros Hd Hn. unfold resampled_name.
  now rewrite (basename_join d name Hn), (extension_join d name Hd).
Qed.

Lemma resampled_name_of_plain_directory_witness :
  resampled_name Scenario.abspath_root "/data/sub-1/anat/sub-1_mag.nii.gz"
  = Scenario.abspath_root "sub-1_mag_resampled.nii.gz".
Proof.
  exact (@resampled_name_of_plain_directory Scenario.abspath_root
           "/data/sub-1/anat" "sub-1_mag.nii.gz" eq_refl eq_refl).
Defined.

Example resampled_name_dotted_directory :
  resampled_name Scenario.abspath_root "/data/v1.2/mag.nii"
  = "/work/mag_resampled.2/mag.nii"%string.
Proof. reflexivity. Qed.

(** ** Saving a resampled mask, and the output of [resample_like] *)

Section MaskAndLike.

Variable fround : dtype -> R -> R.
Variable continuous_interp : ndarray -> Affine.point -> R.
Variable abspath : string -> string.

Lemma resample_to_axial_with_mask (mag_nii pha_nii mk mr pr : Nifti1Image)
    (kr : option Nifti1Image) :
  resample_to_axial fround continuous_interp mag_nii pha_nii (Some mk)
    = Ok (mr, pr, kr) ->
  exists km,
    kr = Some km /\
    resample_img continuous_interp mk (base_affine_of mag_nii) None nearest = Ok km.
Proof.
  unfold resample_to_axial.
  destruct (decompose mag_nii pha_nii) as [[re im]|]; cbn [bind]; [|discriminate].
  destruct (resample_img _ re _ None continuous); cbn [bind]; [|discriminate].
  destruct (resample_img _ im _ None continuous); cbn [bind]; [|discriminate].
  destruct (resample_img _ mk _ None nearest) as [km|]; cbn [bind]; [|discriminate].
  destruct (recompose _ _ _ _ _) as [[m0 p0]|]; cbn [bind]; [|discriminate].
  intros H. injection H as _ _ <-. exists km. split; reflexivity.
Qed.

(** X21: when a mask file is given and the resampling goes through, the third
    returned name is the resampled name of the mask file, never the
    placeholder, and, the mask being saved last, it always loads the mask
    resampled with nearest-neighbour interpolation onto the target affine. *)
Theorem resampled_mask_is_saved (fs fs' : store) (mag_file pha_file f m p : string)
    (k : option string) (mag_nii pha_nii mk : Nifti1Image) :
  resample_and_save fround continuous_interp abspath fs mag_file pha_file
    (Some f) mag_nii pha_nii (Some mk) = Ok ((m, p, k), fs') ->
  k = Some (resampled_name abspath f) /\
  exists km,
    resample_img continuous_interp mk (base_affine_of mag_nii) None nearest = Ok km /\
    nib_load fs' (resampled_name abspath f) = Ok km.
Proof.
  intros Hs.
  destruct (resample_and_save_inv _ _ _ _ _ _ _ _ _ _ Hs)
    as (mr & pr & kr & Hr & _ & _ & Hcase).
  destruct (resample_to_axial_with_mask _ _ _ Hr) as (km & -> & Hk).
  revert Hs. unfold resample_and_save. rewrite Hr. cbn [bind].
  intros H. injection H as _ _ <- <-.
  split; [reflexivity|]. exists km. split; [exact Hk | apply nib_load_saved].
Qed.

(** X22: whenever [resample_like] returns, it has either handed back the
    input name and left the files alone, or written exactly one file, under
    the resampled name of the input, holding a volume with the affine and the
    shape of the reference; every other path loads as before. *)
Theorem resample_like_postcondition (fs fs' : store) (in_file in_like out : string)
    (interp : interpolation) :
  resample_like continuous_interp abspath fs in_file in_like interp = Ok (out, fs') ->
  (out = in_file /\ fs' = fs)
  \/ (out = resampled_name abspath in_file /\
      (exists r ref,
         nib_load fs in_like = Ok ref /\
         nib_load fs' out = Ok r /\
         affine r = affine ref /\
         shape (dataobj r) = data_shape (header ref)) /\
      forall path, path <> out -> nib_load fs' path = nib_load fs path).
Proof.
  unfold resample_like.
  destruct (nib_load fs in_file) as [in_nii|]; cbn [bind]; [|discriminate].
  destruct (nib_load fs in_like) as [ref|] eqn:Hl; cbn [bind]; [|discriminate].
  destruct (Np.array_equal _ _).
  - intros H. injection H as <- <-. now left.
  - destruct (resample_img continuous_interp in_nii (affine ref)
                (Some (data_shape (header ref))) interp) as [r|] eqn:Hr;
      cbn [bind]; [|discriminate].
    intros H. injection H as <- <-. right.
    split; [reflexivity|]. split.
    + exists r, ref. split; [reflexivity|]. split; [apply nib_load_saved|].
      destruct (resample_img_target_affine _ _ _ _ _ Hr) as [Ha Hsh].
      split; [exact Ha | now apply Hsh].
    + intros path Hp. now apply nib_load_other.
Qed.

End MaskAndLike.

Section ReturnsWithMask.

Variable fround : dtype -> R -> R.
Variable continuous_interp : ndarray -> Affine.point -> R.
Variable abspath : string -> string.

Lemma resample_to_axial_mask_step (mag_nii pha_nii mk m p km : Nifti1Image) :
  resample_to_axial fround continuous_interp mag_nii pha_nii None = Ok (m, p, None) ->
  resample_img continuous_interp mk (base_affine_of mag_nii) None nearest = Ok km ->
  resample_to_axial fround continuous_interp mag_nii pha_nii (Some mk)
    = Ok (m, p, Some km).
Proof.
  unfold resample_to_axial.
  generalize (base_affine_of mag_nii). intros T.
  destruct (decompose mag_nii pha_nii) as [[re im]|]; cbn [bind]; [|discriminate].
  destruct (resample_img _ re T None continuous); cbn [bind]; [|discriminate].
  destruct (resample_img _ im T None continuous); cbn [bind]; [|discriminate].
  intros H Hk. rewrite Hk. cbn [bind].
  destruct (recompose _ _ _ _ _) as [[m0 p0]|]; cbn [bind] in *; [|discriminate].
  injection H as <- <-. reflexivity.
Qed.

Lemma resample_and_save_with_mask (fs : store) (mag_file pha_file f : string)
    (mag_nii pha_nii mk mr pr km : Nifti1Image) :
  resample_to_axial fround continuous_interp mag_nii pha_nii (Some mk)
    = Ok (mr, pr, Some km) ->
  resample_and_save fround continuous_interp abspath fs mag_file pha_file
    (Some f) mag_nii pha_nii (Some mk)
  = Ok ((resampled_name abspath mag_file, resampled_name abspath pha_file,
         Some (resampled_name abspath f)),
        nib_save km (resampled_name abspath f)
          (nib_save pr (resampled_name abspath pha_file)
             (nib_save mr (resampled_name abspath mag_file) fs))).
Proof. intros H. unfold resample_and_save. rewrite H. reflexivity. Qed.

Lemma resample_like_slow_path (fs : store) (in_file in_like : string)
    (interp : interpolation) (in_nii ref r : Nifti1Image) :
  nib_load fs in_file = Ok in_nii ->
  nib_load fs in_like = Ok ref ->
  Np.array_equal (affine in_nii) (affine ref) = false ->
  resample_img continuous_interp in_nii (affine ref)
    (Some (data_shape (header ref))) interp = Ok r ->
  resample_like continuous_interp abspath fs in_file in_like interp
  = Ok (resampled_name abspath in_file,
        nib_save r (resampled_name abspath in_file) fs).
Proof.
  intros H1 H2 H3 H4. unfold resample_like.
  rewrite H1, H2. cbn [bind]. rewrite H3, H4. reflexivity.
Qed.

End ReturnsWithMask.

Lemma resampled_mask_is_saved_witness :
  exists fs' km,
    resample_and_save Scenario.fround_id Scenario.interp0 Scenario.abspath_root
      Scenario.files "u_mag.nii" "u_phase.nii" (Some "u_mask.nii"%string)
      Scenario.unit_mag Scenario.unit_pha (Some Scenario.unit_mask)
    = Ok (("/work/u_mag_resampled.nii"%string, "/work/u_phase_resampled.nii"%string,
           Some "/work/u_mask_resampled.nii"%string), fs') /\
    nib_load fs' "/work/u_mask_resampled.nii" = Ok km.
Proof.
  destruct (resample_to_axial_returns Scenario.fround_id Scenario.interp0
              Scenario.unit_mag Scenario.unit_pha eq_refl eq_refl eq_refl)
    as (mr & pr & Hr).
  destruct (resample_img_returns Scenario.interp0 Scenario.unit_mask
              (base_affine_of Scenario.unit_mag) None nearest eq_refl eq_refl)
    as (km & _ & _ & Hk & _).
  pose proof (resample_to_axial_mask_step Scenario.fround_id Scenario.interp0
                _ _ Scenario.unit_mask Hr Hk) as Hm.
  pose proof (resample_and_save_with_mask Scenario.fround_id Scenario.interp0
                Scenario.abspath_root Scenario.files "u_mag.nii" "u_phase.nii"
                "u_mask.nii" Scenario.unit_mag Scenario.unit_pha
                Scenario.unit_mask Hm) as Hs.
  exists (nib_save km "/work/u_mask_resampled.nii"
            (nib_save pr "/work/u_phase_resampled.nii"
               (nib_save mr "/work/u_mag_resampled.nii" Scenario.files))), km.
  split; [exact Hs|].
  destruct (@resampled_mask_is_saved Scenario.fround_id Scenario.interp0
              Scenario.abspath_root Scenario.files _ "u_mag.nii" "u_phase.nii"
              "u_mask.nii" _ _ _ Scenario.unit_mag Scenario.unit_pha
              Scenario.unit_mask Hs) as (_ & km' & Hk' & Hl).
  rewrite Hk in Hk'. injection Hk' as <-. exact Hl.
Defined.

Lemma resample_like_postcondition_witness :
  exists r,
    resample_like Scenario.interp0 Scenario.abspath_root Scenario.files
      "u_mask.nii" "sub-1_mag.nii.gz" nearest
    = Ok ("/work/u_mask_resampled.nii"%string,
          nib_save r "/work/u_mask_resampled.nii" Scenario.files) /\
    nib_load (nib_save r "/work/u_mask_resampled.nii" Scenario.files) "u_mask.nii"
    = Ok Scenario.unit_mask.
Proof.
  destruct (resample_img_returns Scenario.interp0 Scenario.unit_mask
              (affine Scenario.axial_mag) (Some (64, 64, 64)%nat) nearest
              eq_refl eq_refl) as (r & _ & _ & Hr & _).
  pose proof (@resample_like_slow_path Scenario.interp0 Scenario.abspath_root
                Scenario.files "u_mask.nii" "sub-1_mag.nii.gz" nearest
                Scenario.unit_mask Scenario.axial_mag r eq_refl eq_refl eq_refl Hr)
    as Hl.
  exists r. split; [exact Hl|].
  destruct (@resample_like_postcondition Scenario.interp0 Scenario.abspath_root
              Scenario.files _ "u_mask.nii" "sub-1_mag.nii.gz" _ nearest Hl)
    as [[H _]|(_ & _ & Hframe)]; [discriminate H|].
  assert (Hne : "u_mask.nii"%string
                <> resampled_name Scenario.abspath_root "u_mask.nii")
    by (vm_compute; discriminate).
  exact (eq_trans (Hframe "u_mask.nii"%string Hne) eq_refl).
Defined.

(** ** run_2_qsm.py: run labels and folder selection *)

Section StringFacts.

Local Open Scope string_scope.

Lemma app_assoc_string (a b c : string) : (a ++ b) ++ c = a ++ (b ++ c).
Proof. induction a as [|x a IH]; cbn; [reflexivity | now rewrite IH]. Qed.

Lemma app_nil_r_string (a : string) : a ++ "" = a.
Proof. induction a as [|x a IH]; cbn; [reflexivity | now rewrite IH]. Qed.

Lemma length_app_string (a b : string) :
  String.length (a ++ b) = (String.length a + String.length b)%nat.
Proof. induction a as [|x a IH]; cbn; [reflexivity | now rewrite IH]. Qed.

Lemma prefix_app_long (n s u : string) :
  (String.length n <= String.length s)%nat ->
  String.prefix n (s ++ u) = String.prefix n s.
Proof.
  revert n. induction s as [|c s IH]; intros n H.
  - destruct n; [now destruct u | cbn in H; lia].
  - destruct n as [|a n]; [reflexivity|]. cbn in *.
    destruct (ascii_dec a c); [apply IH; lia | reflexivity].
Qed.

Lemma prefix_self_app (n t : string) : String.prefix n (n ++ t) = true.
Proof.
  induction n as [|a n IH]; cbn; [now destruct t|].
  destruct (ascii_dec a a); [exact IH | congruence].
Qed.

Lemma find_at_first (needle m : string) (x : ascii) (pre t : string) (p : nat) :
  needle = m ++ String x "" ->
  Qsm.contains needle (pre ++ m) = false ->
  Bids.find_at needle (pre ++ needle ++ t) p = Some (p + String.length pre)%nat.
Proof.
  intros En. revert p. induction pre as [|c pre IH]; intros p H.
  - cbn [append]. replace (p + String.length "")%nat with p by (cbn; lia).
    destruct (needle ++ t) eqn:E;
      cbn [Bids.find_at]; rewrite <- E, prefix_self_app; reflexivity.
  - cbn [append] in *. cbn [Qsm.contains] in H.
    apply orb_false_iff in H. destruct H as [Hp Hc].
    cbn [Bids.find_at].
    assert (P : String.prefix needle (String c (pre ++ needle ++ t)) = false).
    { replace (String c (pre ++ needle ++ t))
        with (String c (pre ++ m) ++ (String x "" ++ t)).
      - rewrite prefix_app_long; [exact Hp|].
        rewrite En. cbn. rewrite !length_app_string. cbn. lia.
      - cbn. f_equal. rewrite En.
        rewrite !app_assoc_string. reflexivity. }
    rewrite P. rewrite (IH (S p) Hc). f_equal. cbn. lia.
Qed.

Lemma find_at_absent (needle s : string) (p : nat) :
  Qsm.contains needle s = false -> Bids.find_at needle s p = None.
Proof.
  revert p. induction s as [|c s IH]; intros p H; cbn in *.
  - apply orb_false_iff in H. destruct H as [H _]. now rewrite H.
  - apply orb_false_iff in H. destruct H as [Hp Hc].
    rewrite Hp. now apply IH.
Qed.

Lemma skip_app (u v : string) : Bids.skip (String.length u) (u ++ v) = v.
Proof. induction u as [|c u IH]; cbn; [now destruct v | exact IH]. Qed.

Lemma substring_skip (u v : string) (m : nat) :
  String.substring (String.length u) m (u ++ v) = String.substring 0 m v.
Proof.
  induction u as [|c u IH]; cbn; [reflexivity|]. exact IH.
Qed.

Lemma substring_prefix (v w : string) :
  String.substring 0 (String.length v) (v ++ w) = v.
Proof.
  induction v as [|c v IH]; cbn; [now destruct w | now rewrite IH].
Qed.

End StringFacts.

Section RunLabelFacts.

Local Open Scope string_scope.

Variables path pre id : string.
Hypothesis Hfirst : Qsm.contains "run-" (pre ++ "run") = false.
Hypothesis Hid : Qsm.contains "_" id = false.

Lemma find_run (t : string) :
  Bids.find "run-" (pre ++ "run-" ++ t) 0 = Z.of_nat (String.length pre).
Proof.
  unfold Bids.find. cbn [Nat.ltb Nat.leb Bids.skip].
  replace (Bids.skip 0 (pre ++ "run-" ++ t)) with (pre ++ "run-" ++ t)
    by (now destruct (pre ++ "run-" ++ t)).
  rewrite (@find_at_first "run-" "run" "-" pre t 0 eq_refl Hfirst).
  reflexivity.
Qed.

(** X23: for a phase file whose base name reads
    [<pre>run-<id>_<rest>], with no earlier "run-" and no underscore in
    the id, the run label is "run-<id>". *)
Theorem run_label_of_bids_name (rest : string) :
  Path.basename path = pre ++ "run-" ++ id ++ "_" ++ rest ->
  Bids.run_label path = "run-" ++ id.
Proof.
  intros Hname. unfold Bids.run_label. rewrite Hname.
  rewrite (find_run (id ++ "_" ++ rest)).
  replace (Z.to_nat (Z.of_nat (String.length pre) + 4))
    with (String.length (pre ++ "run-"))
    by (rewrite length_app_string; cbn; lia).
  replace (pre ++ "run-" ++ id ++ "_" ++ rest)
    with ((pre ++ "run-") ++ id ++ "_" ++ rest)
    by (now rewrite app_assoc_string).
  set (u := pre ++ "run-").
  assert (F : Bids.find "_" (u ++ id ++ "_" ++ rest) (String.length u)
              = Z.of_nat (String.length u + String.length id)).
  { unfold Bids.find.
    destruct (Nat.ltb_spec (String.length (u ++ id ++ "_" ++ rest)) (String.length u))
      as [H|_]; [rewrite length_app_string in H; lia|].
    rewrite skip_app.
    rewrite (@find_at_first "_" "" "_" id rest (String.length u) eq_refl)
      by (rewrite app_nil_r_string; exact Hid).
    reflexivity. }
  rewrite F. unfold Bids.slice.
  destruct (Z.ltb_spec (Z.of_nat (String.length u + String.length id)) 0) as [H|_];
    [lia|].
  rewrite Z.min_l
    by (rewrite !length_app_string; lia).
  rewrite Nat2Z.id.
  replace (String.length u + String.length id - String.length u)%nat
    with (String.length id) by lia.
  rewrite substring_skip, substring_prefix. reflexivity.
Qed.

(** X24: when no underscore follows the run id, [find] answers -1 and the
    slice ends one character before the end of the name: the label loses
    the last character of what follows "run-". *)
Theorem run_label_without_underscore :
  Path.basename path = pre ++ "run-" ++ id ->
  Bids.run_label path
  = "run-" ++ String.substring 0 (String.length id - 1) id.
Proof.
  intros Hname. unfold Bids.run_label. rewrite Hname.
  rewrite (find_run id).
  replace (Z.to_nat (Z.of_nat (String.length pre) + 4))
    with (String.length (pre ++ "run-"))
    by (rewrite length_app_string; cbn; lia).
  replace (pre ++ "run-" ++ id) with ((pre ++ "run-") ++ id)
    by (now rewrite app_assoc_string).
  set (u := pre ++ "run-").
  assert (F : Bids.find "_" (u ++ id) (String.length u) = (-1)%Z).
  { unfold Bids.find.
    destruct (Nat.ltb_spec (String.length (u ++ id)) (String.length u))
      as [H|_]; [reflexivity|].
    rewrite skip_app, (@find_at_absent "_" id (String.length u) Hid). reflexivity. }
  rewrite F. unfold Bids.slice. cbn [Z.ltb Z.compare].
  rewrite length_app_string.
  replace (Z.to_nat (Z.max 0 (Z.of_nat (String.length u + String.length id) + -1))
           - String.length u)%nat
    with (String.length id - 1)%nat by lia.
  now rewrite substring_skip.
Qed.

End RunLabelFacts.

Lemma run_label_of_bids_name_witness :
  Bids.run_label "/bids/sub-1/ses-1/anat/sub-1_ses-1_run-12_echo-1_phase.nii.gz"
  = "run-12"%string.
Proof.
  exact (@run_label_of_bids_name
           "/bids/sub-1/ses-1/anat/sub-1_ses-1_run-12_echo-1_phase.nii.gz"
           "sub-1_ses-1_" "12" eq_refl eq_refl "echo-1_phase.nii.gz" eq_refl).
Defined.

Lemma run_label_without_underscore_witness :
  Bids.run_label "/bids/phase-run-12" = "run-1"%string.
Proof.
  exact (@run_label_without_underscore "/bids/phase-run-12" "phase-" "12"
           eq_refl eq_refl eq_refl).
Defined.

(** X25: without a list of wanted names, or with an empty one, every matched
    folder is kept; with a non-empty list, a folder is kept exactly when its
    base name is matched and wanted; nothing else ever appears. *)
Theorem select_folders_spec (matches : list string) (wanted : option (list string)) :
  (Bids.truthy_list wanted = false ->
   Bids.select_folders matches wanted = List.map Path.basename matches) /\
  (forall l, wanted = Some l -> l <> [] ->
   forall x, In x (Bids.select_folders matches wanted)
             <-> In x (List.map Path.basename matches) /\ In x l).
Proof.
  split.
  - intros H. unfold Bids.select_folders. rewrite H. cbn [negb orb].
    f_equal. induction matches as [|m ms IH]; cbn; [reflexivity | now rewrite IH].
  - intros l -> Hl x. unfold Bids.select_folders.
    assert (T : Bids.truthy_list (Some l) = true) by (destruct l; [congruence | reflexivity]).
    rewrite T. cbn [negb orb Bids.member].
    rewrite !in_map_iff. split.
    + intros (p & <- & Hp). apply filter_In in Hp. destruct Hp as [Hin Hex].
      apply existsb_exists in Hex. destruct Hex as (y & Hy & E).
      apply String.eqb_eq in E. subst y.
      split; [exists p; split; [reflexivity | exact Hin] | exact Hy].
    + intros [(p & <- & Hin) Hx]. exists p. split; [reflexivity|].
      apply filter_In. split; [exact Hin|].
      apply existsb_exists. exists (Path.basename p).
      split; [exact Hx | apply String.eqb_refl].
Qed.

Lemma select_folders_spec_witness :
  Bids.select_folders ["/bids/sub-1"; "/bids/sub-2"]%string (Some [])
  = ["sub-1"; "sub-2"]%string.
Proof.
  exact (proj1 (select_folders_spec ["/bids/sub-1"; "/bids/sub-2"]%string (Some []))
           eq_refl).
Defined.
